(** * kapp preflight safety checks: CRD upgrade safety and RBAC permissions

    A shallow embedding of two packages of kapp:

    - [crdupgradesafety] (change_validator.go): the schema flattener, the
      flat schema differ, the enum and required-field change validations
      and the [ChangeValidator] that chains them;
    - [permissions] (preflight.go, validator.go, basic_validator.go): the
      permission preflight check, its two permission validator strategies
      and the role/binding rule resolvers.

    Go maps are [gmap]s and Go sets ([sets.String]) are [gset]s. The
    slices of a schema node are optional lists (a [nil] slice is [None]:
    [reflect.DeepEqual] tells a nil slice from an empty one); elsewhere a
    slice is a list. Pointers that the code dereferences without a check
    are plain values, and a function that mutates the object behind a
    pointer returns the new content of that object. Remote calls are
    answered by functions taken as parameters. *)

From stdpp Require Import gmap strings list fin_maps.

Set Warnings "-register-all,-clear-no-such-hyp".

Open Scope string_scope.
Open Scope list_scope.
Open Scope nat_scope.

(** ** Slices *)

(** [len(s)] of a Go slice: a nil slice has length zero. *)
Definition slice_len {A} (s : option (list A)) : nat :=
  match s with
  | None => 0
  | Some l => length l
  end.

(** The elements a [for _, x := range s] loop visits. *)
Definition slice_elems {A} (s : option (list A)) : list A :=
  match s with
  | None => []
  | Some l => l
  end.

(** A visiting order for [for k, v := range m] over a Go map: every
    entry once, in an order the language leaves open. *)
Definition range_order {A} (m : gmap string A) (entries : list (string * A)) : Prop :=
  entries ≡ₚ map_to_list m.

(** A choice of visiting order for every map. *)
Definition range_ok (range : forall A : Type, gmap string A -> list (string * A)) : Prop :=
  forall (A : Type) (m : gmap string A), range_order m (range A m).

Module CRDUpgradeSafety.

(** *** Schema nodes *)

(** [v1.JSONSchemaProps] of the Kubernetes apiextensions API, with the
    attributes the package reads or the tests set: the identifier, the
    type, the default ([*JSON], the raw bytes), the enum values ([[]JSON],
    each the raw bytes), the required child names and the child nodes
    ([Properties], a map from child name to child node). *)
Inductive JSONSchemaProps : Type := MkJSONSchemaProps {
  ID : string;
  Type_ : string;
  Default : option string;
  Enum : option (list string);
  Required : option (list string);
  Properties : option (gmap string JSONSchemaProps)
}.

Definition empty_props : JSONSchemaProps :=
  MkJSONSchemaProps "" "" None None None None.

(** [reflect.DeepEqual] on two schema nodes: field by field, maps compared
    by key set and by the values at each key. *)
Fixpoint deep_equal (a b : JSONSchemaProps) : bool :=
  bool_decide (ID a = ID b) && bool_decide (Type_ a = Type_ b)
  && bool_decide (Default a = Default b)
  && bool_decide (Enum a = Enum b) && bool_decide (Required a = Required b)
  && match Properties a, Properties b with
     | None, None => true
     | Some ma, Some mb =>
         bool_decide (dom ma = dom mb)
         && map_fold (fun k ca acc =>
                        acc && match mb !! k with
                               | Some cb => deep_equal ca cb
                               | None => false
                               end) true ma
     | _, _ => false
     end.

(** [s.DeepCopy()]: a fresh object with the same content. *)
Definition DeepCopy (s : JSONSchemaProps) : JSONSchemaProps := s.

Definition set_Enum (e : option (list string)) (s : JSONSchemaProps) : JSONSchemaProps :=
  MkJSONSchemaProps (ID s) (Type_ s) (Default s) e (Required s) (Properties s).

Definition set_Required (r : option (list string)) (s : JSONSchemaProps) : JSONSchemaProps :=
  MkJSONSchemaProps (ID s) (Type_ s) (Default s) (Enum s) r (Properties s).

Definition set_Properties (p : option (gmap string JSONSchemaProps)) (s : JSONSchemaProps)
  : JSONSchemaProps :=
  MkJSONSchemaProps (ID s) (Type_ s) (Default s) (Enum s) (Required s) p.

(** The number of nodes of a schema tree, the root included. *)
Fixpoint count_nodes (s : JSONSchemaProps) : nat :=
  match Properties s with
  | None => 1
  | Some ps => S (map_fold (fun _ c acc => count_nodes c + acc) 0 ps)
  end.

(** *** Errors *)

(** The errors of the package, one constructor per [fmt.Errorf] format. *)
Inductive error : Type :=
  (** an error made by a caller-supplied validation *)
  | ErrOther (msg : string)
  (** ["enums added when there were no enum restrictions previously"] *)
  | ErrEnumsAdded
  (** ["enum values removed: %+v"], with the removed values (the message
      lists them in the order [UnsortedList] happens to give) *)
  | ErrEnumValuesRemoved (removed : gset string)
  (** ["new values added as required when previously no required fields
      existed: %+v"]; the operand is read from the diff in the same return
      statement that clears it, so the list the message shows is not
      modelled *)
  | ErrRequiredAddedToNone
  (** ["new required fields added: %+v"], with the added names *)
  | ErrNewRequiredAdded (added : gset string)
  (** ["field %q in existing not found in new"] *)
  | ErrFieldNotFound (field : string)
  (** ["calculating schema diff for CRD version %q"] *)
  | ErrCalculatingDiff (version : string)
  (** ["version %q, field %q: %w"] *)
  | ErrVersionField (version field : string) (cause : error)
  (** ["version %q, field %q has unknown change, refusing to determine
      that change is safe"] *)
  | ErrUnknownChange (version field : string)
  (** [errors.Join(errs...)] *)
  | ErrJoin (errs : list error).

(** *** Field diffs and change validations *)

(** [FieldDiff]: two pointers to schema nodes. The record holds the
    content of the two pointed-to nodes. *)
Record FieldDiff : Type := MkFieldDiff {
  Old : JSONSchemaProps;
  New : JSONSchemaProps
}.

(** [ChangeValidation func(diff FieldDiff) (bool, error)]. The struct is
    passed by value but its two pointers are shared with the caller, so a
    validation also yields the content of the two nodes as it leaves
    them. *)
Definition ChangeValidation : Type := FieldDiff -> FieldDiff * (bool * option error).

(** The [handled] closure of [EnumChangeValidation]: it clears the enum
    values of both nodes in place and compares the nodes. *)
Definition enum_handled (diff : FieldDiff) : FieldDiff * bool :=
  let diff' := MkFieldDiff (set_Enum (Some []) (Old diff)) (set_Enum (Some []) (New diff)) in
  (diff', deep_equal (Old diff') (New diff')).

(** The [for ... { if !set.Has(x) { set.Insert(x) } }] loops. *)
Definition collect_set (l : list string) : gset string :=
  foldl (fun s x => if bool_decide (x ∈ s) then s else {[x]} ∪ s) ∅ l.

Definition EnumChangeValidation : ChangeValidation := fun diff =>
  if (slice_len (Enum (Old diff)) =? 0) && (0 <? slice_len (Enum (New diff))) then
    let '(diff', h) := enum_handled diff in (diff', (h, Some ErrEnumsAdded))
  else
    let oldSet := collect_set (slice_elems (Enum (Old diff))) in
    let newSet := collect_set (slice_elems (Enum (New diff))) in
    let diffSet := oldSet ∖ newSet in
    if 0 <? size diffSet then
      let '(diff', h) := enum_handled diff in (diff', (h, Some (ErrEnumValuesRemoved diffSet)))
    else
      let '(diff', h) := enum_handled diff in (diff', (h, None)).

(** The [handled] closure of [RequiredFieldChangeValidation]. *)
Definition required_handled (diff : FieldDiff) : FieldDiff * bool :=
  let diff' := MkFieldDiff (set_Required (Some []) (Old diff))
                           (set_Required (Some []) (New diff)) in
  (diff', deep_equal (Old diff') (New diff')).

Definition RequiredFieldChangeValidation : ChangeValidation := fun diff =>
  if (slice_len (Required (Old diff)) =? 0) && (0 <? slice_len (Required (New diff))) then
    let '(diff', h) := required_handled diff in (diff', (h, Some ErrRequiredAddedToNone))
  else
    let oldSet := collect_set (slice_elems (Required (Old diff))) in
    let newSet := collect_set (slice_elems (Required (New diff))) in
    let diffSet := newSet ∖ oldSet in
    if 0 <? size diffSet then
      let '(diff', h) := required_handled diff in (diff', (h, Some (ErrNewRequiredAdded diffSet)))
    else
      let '(diff', h) := required_handled diff in (diff', (h, None)).

(** The three things a validation hands back. *)
Definition diff_after (r : FieldDiff * (bool * option error)) : FieldDiff := fst r.
Definition handled_of (r : FieldDiff * (bool * option error)) : bool := fst (snd r).
Definition error_of (r : FieldDiff * (bool * option error)) : option error := snd (snd r).

(** *** Flattening *)

(** [FlatSchema map[string]*v1.JSONSchemaProps]; the stored pointers are
    never nil. *)
Abbreviation FlatSchema := (gmap string JSONSchemaProps).

(** [simpleLocation.Child(name).String()] *)
Definition child_path (path name : string) : string := path +:+ "." +:+ name.

(** Modelled from the spec: [manifestcomparators.SchemaHas] and
    [field.Path] belong to libraries outside the repository. The walk is
    depth-first from the root: the callback is called at the node with the
    node's path, then every child is walked at the parent's path with
    [.name] appended. The callback of [FlattenSchema] always answers
    [false], so the walk never stops early and the callback is a state
    transformer. Children are visited in the order [map_fold] gives; Go
    leaves that order open. *)
Fixpoint SchemaHas {St : Type} (pred : JSONSchemaProps -> string -> St -> St)
    (simpleLocation : string) (s : JSONSchemaProps) (st : St) : St :=
  let st := pred s simpleLocation st in
  match Properties s with
  | None => st
  | Some ps =>
      map_fold (fun name child acc => SchemaHas pred (child_path simpleLocation name) child acc)
               st ps
  end.

(** [FlattenSchema]: a nil schema is never handed to the callback. *)
Definition FlattenSchema (schema : option JSONSchemaProps) : FlatSchema :=
  match schema with
  | None => ∅
  | Some s =>
      SchemaHas (fun s simpleLocation (fieldMap : FlatSchema) =>
                   <[simpleLocation := DeepCopy s]> fieldMap) "^" s ∅
  end.

(** The write of the callback of [FlattenSchema]. *)
Definition record_node (fieldMap : FlatSchema) (entry : string * JSONSchemaProps) : FlatSchema :=
  <[entry.1 := DeepCopy entry.2]> fieldMap.

(** The nodes of a tree with their paths, one pair per node, in the
    order of the walk. *)
Fixpoint node_entries (path : string) (s : JSONSchemaProps) : list (string * JSONSchemaProps) :=
  (path, s) :: match Properties s with
               | None => []
               | Some ps =>
                   map_fold (fun name child acc =>
                               acc ++ node_entries (child_path path name) child) [] ps
               end.

Definition node_paths (path : string) (s : JSONSchemaProps) : list string :=
  (node_entries path s).*1.

(** *** Diffing and the validator *)

(** A node without its child nodes, as the differ compares it. *)
Abbreviation own_attributes s := (set_Properties None (DeepCopy s)).

Section RangeOrder.

(** The order in which a [range] loop visits a map. *)
Variable range : forall A : Type, gmap string A -> list (string * A).

(** The body of the loop of [CalculateFlatSchemaDiff], over the entries
    of [o] still to visit. *)
Fixpoint diff_loop (entries : list (string * JSONSchemaProps)) (n : FlatSchema)
    (diffMap : gmap string FieldDiff) : gmap string FieldDiff * option error :=
  match entries with
  | [] => (diffMap, None)
  | (field, schema) :: rest =>
      match n !! field with
      | None => (diffMap, Some (ErrFieldNotFound field))
      | Some newSchema =>
          let oldCopy := set_Properties None (DeepCopy schema) in
          let newCopy := set_Properties None (DeepCopy newSchema) in
          if negb (deep_equal oldCopy newCopy) then
            diff_loop rest n (<[field := MkFieldDiff oldCopy newCopy]> diffMap)
          else diff_loop rest n diffMap
      end
  end.

Definition CalculateFlatSchemaDiff (o n : FlatSchema) : gmap string FieldDiff * option error :=
  diff_loop (range _ o) n ∅.

(** [ChangeValidator]: the validations to run against each changed field. *)
Record ChangeValidator : Type := MkChangeValidator {
  Validations : list ChangeValidation
}.

(** What the inner loop of [Validate] leaves behind for one field: the
    two nodes as the validations left them, the [handled] flag, the errors
    appended and the number of validations called. *)
Record ChainRun : Type := MkChainRun {
  run_diff : FieldDiff;
  run_handled : bool;
  run_errs : list error;
  run_calls : nat
}.

(** [for _, validation := range cv.Validations { ... }] *)
Fixpoint run_validations (validations : list ChangeValidation) (version field : string)
    (diff : FieldDiff) : ChainRun :=
  match validations with
  | [] => MkChainRun diff false [] 0
  | validation :: rest =>
      let '(diff', (ok, err)) := validation diff in
      let errs := match err with
                  | Some e => [ErrVersionField version field e]
                  | None => []
                  end in
      if ok then MkChainRun diff' true errs 1
      else
        let r := run_validations rest version field diff' in
        MkChainRun (run_diff r) (run_handled r) (errs ++ run_errs r) (S (run_calls r))
  end.

(** The body of [for field, diff := range diffs]: the errors one field
    adds. *)
Definition validate_field (cv : ChangeValidator) (version field : string) (diff : FieldDiff)
  : list error :=
  let r := run_validations (Validations cv) version field diff in
  if negb (run_handled r) then run_errs r ++ [ErrUnknownChange version field]
  else run_errs r.

(** What each validation of a chain answers when it is called on the
    diff as the validations before it left it: the chain as the spec
    words it, every validation asked in turn. *)
Fixpoint chain_answers (validations : list ChangeValidation) (diff : FieldDiff)
  : list (bool * option error) :=
  match validations with
  | [] => []
  | validation :: rest =>
      let '(diff', answer) := validation diff in
      answer :: chain_answers rest diff'
  end.

(** The errors among some answers, each wrapped with the version and the
    field it is about. *)
Definition recorded (version field : string) (answers : list (bool * option error))
  : list error :=
  omap (fun answer => ErrVersionField version field <$> snd answer) answers.

(** A version of a CRD: its name and [Schema.OpenAPIV3Schema]. The
    code reads through [Schema] without a nil check; versions come with a
    schema object, whose [OpenAPIV3Schema] may be nil. *)
Record CustomResourceDefinitionVersion : Type := MkVersion {
  Name : string;
  OpenAPIV3Schema : option JSONSchemaProps
}.

(** A CRD: [Spec.Versions]. *)
Record CustomResourceDefinition : Type := MkCRD {
  Versions : list CustomResourceDefinitionVersion
}.

(** Modelled from the spec: [manifestcomparators.GetVersionByName] is
    library code; it finds the version of that name, nil when the CRD has
    none. *)
Definition GetVersionByName (crd : CustomResourceDefinition) (name : string)
  : option CustomResourceDefinitionVersion :=
  List.find (fun v => bool_decide (Name v = name)) (Versions crd).

(** The errors one version of the old CRD adds. *)
Definition validate_version (cv : ChangeValidator) (new : CustomResourceDefinition)
    (version : CustomResourceDefinitionVersion) : list error :=
  match GetVersionByName new (Name version) with
  | None => []
  | Some newVersion =>
      let flatOld := FlattenSchema (OpenAPIV3Schema version) in
      let flatNew := FlattenSchema (OpenAPIV3Schema newVersion) in
      match CalculateFlatSchemaDiff flatOld flatNew with
      | (_, Some _) => [ErrCalculatingDiff (Name version)]
      | (diffs, None) =>
          flat_map (fun '(field, diff) => validate_field cv (Name version) field diff)
                   (range _ diffs)
      end
  end.

Definition Validate (cv : ChangeValidator) (old new : CustomResourceDefinition) : option error :=
  let errs := flat_map (validate_version cv new) (Versions old) in
  if 0 <? length errs then Some (ErrJoin errs) else None.

End RangeOrder.

End CRDUpgradeSafety.

Module Permissions.

(** *** Errors *)

(** The errors of the package, one constructor per message format. The
    group/version/resource triple of [gvr.String()] is kept as three
    strings. *)
Inductive error : Type :=
  (** an error handed back by a collaborator: the dependency factory, the
      cluster API, the REST mapper, the JSON codec, a typed conversion *)
  | ErrOther (msg : string)
  (** ["converting CheckConfig to bytes: %w"] *)
  | ErrConvertingCheckConfig (cause : error)
  (** ["parsing permissions preflight config: %w"] *)
  | ErrParsingConfig (cause : error)
  (** ["unknown permissionValidatorType %q"] *)
  | ErrUnknownPermissionValidatorType (name : string)
  (** ["unable to validate permissions: returned SelfSubjectAccessReview is nil"] *)
  | ErrReviewIsNil
  (** ["unable to validate permissions: %s"] *)
  | ErrEvaluation (msg : string)
  (** ["not permitted to %q %s"] *)
  | ErrNotPermitted (verb group version resource : string)
  (** ["creating selfsubjectrulesreview: %w"] *)
  | ErrCreatingRulesReview (cause : error)
  (** ["selfsubjectrulesreview is incomplete"] *)
  | ErrRulesReviewIncomplete
  (** ["converting resource to typed RoleBinding object: %w"] *)
  | ErrConvertingRoleBinding (cause : error)
  (** ["converting resource to typed ClusterRoleBinding object: %w"] *)
  | ErrConvertingClusterRoleBinding (cause : error)
  (** ["unknown binding kind %q"] *)
  | ErrUnknownBindingKind (kind : string)
  (** ["fetching ClusterRole %q for RoleBinding %q: %w"] *)
  | ErrFetchingClusterRoleForRoleBinding (role binding : string) (cause : error)
  (** ["fetching Role %q for RoleBinding %q: %w"] *)
  | ErrFetchingRoleForRoleBinding (role binding : string) (cause : error)
  (** ["unknown role reference kind: %q"] *)
  | ErrUnknownRoleReferenceKind (kind : string)
  (** ["fetching ClusterRole %q for ClusterRoleBinding %q: %w"] *)
  | ErrFetchingClusterRoleForClusterRoleBinding (role binding : string) (cause : error)
  (** [errors.Join(errs...)] *)
  | ErrJoin (errs : list error).

(** A Go result pair [(value, error)] of which one side is set. *)
Definition result (A : Type) : Type := error + A.

(** *** Configuration of the preflight check *)

Definition PermissionValidatorTypeSelfSubjectAccessReview : string := "SelfSubjectAccessReview".
Definition PermissionValidatorTypeSelfSubjectRulesReview : string := "SelfSubjectRulesReview".

Record PreflightConfig : Type := MkPreflightConfig {
  PermissionValidatorResource : string
}.

(** A value of a [preflight.CheckConfig] ([map[string]any]), by what the
    JSON codec makes of it. *)
Inductive any : Type :=
  | AnyNil
  | AnyString (s : string)
  | AnyNumber (n : Z)
  | AnyBool (b : bool)
  (** a nested map or slice *)
  | AnyComposite
  (** a value [json.Marshal] refuses, such as a channel or a function *)
  | AnyUnsupported.

Abbreviation CheckConfig := (gmap string any).

Definition json_supported (v : any) : bool :=
  match v with
  | AnyUnsupported => false
  | _ => true
  end.

(** [json.Marshal(cfg)]: fails when a value cannot be encoded; the bytes
    are kept as the bag itself. *)
Definition json_Marshal (cfg : CheckConfig) : result CheckConfig :=
  if bool_decide (map_Forall (fun _ v => json_supported v = true) cfg) then inr cfg
  else inl (ErrOther "json: unsupported type").

(** [json.Unmarshal(cfgBytes, pCfg)] into a fresh [PreflightConfig]: the
    field tagged [permissionValidatorResource] takes a JSON string, stays
    empty on a missing key or [null], and any other JSON value is a type
    error. Other keys are ignored. (A key that matches the tag only up to
    letter case is left out of the model.) *)
Definition json_Unmarshal (cfgBytes : CheckConfig) : result PreflightConfig :=
  match cfgBytes !! "permissionValidatorResource" with
  | None | Some AnyNil => inr (MkPreflightConfig "")
  | Some (AnyString s) => inr (MkPreflightConfig s)
  | Some _ => inl (ErrOther "json: cannot unmarshal into Go struct field of type string")
  end.

(** [cmdcore.DepsFactory], by the error, if any, of the two calls [Run]
    makes on it. *)
Record DepsFactory : Type := MkDepsFactory {
  CoreClient : option error;
  RESTMapper : option error
}.

Record Preflight : Type := MkPreflight {
  depsFactory : DepsFactory;
  enabled : bool;
  config : PreflightConfig
}.

Definition NewPreflight (depsFactory : DepsFactory) (enabled : bool) : Preflight :=
  MkPreflight depsFactory enabled
    (MkPreflightConfig PermissionValidatorTypeSelfSubjectAccessReview).

Definition Enabled (p : Preflight) : bool := enabled p.

Definition SetEnabled (p : Preflight) (e : bool) : Preflight :=
  MkPreflight (depsFactory p) e (config p).

(** [SetConfig]: the receiver as the call leaves it, and the error. The
    decoded [pCfg] is a local of the function. *)
Definition SetConfig (p : Preflight) (cfg : CheckConfig) : Preflight * option error :=
  match json_Marshal cfg with
  | inl err => (p, Some (ErrConvertingCheckConfig err))
  | inr cfgBytes =>
      match json_Unmarshal cfgBytes with
      | inl err => (p, Some (ErrParsingConfig err))
      | inr pCfg =>
          let name := PermissionValidatorResource pCfg in
          if bool_decide (name = PermissionValidatorTypeSelfSubjectAccessReview)
             || bool_decide (name = PermissionValidatorTypeSelfSubjectRulesReview)
          then (p, None)
          else if bool_decide (name = "") then
            let pCfg := MkPreflightConfig PermissionValidatorTypeSelfSubjectAccessReview in
            (p, None)
          else (p, Some (ErrUnknownPermissionValidatorType name))
      end
  end.

(** The permission validator [Run] builds: the direct strategy, the
    cached strategy, or none when the switch matches no case and the
    interface variable stays nil. *)
Inductive PermissionValidator : Type :=
  | SelfSubjectAccessReviewStrategy
  | SelfSubjectRulesReviewStrategy.

(** The [switch p.config.PermissionValidatorResource] of [Run]. *)
Definition select_permission_validator (cfg : PreflightConfig) : option PermissionValidator :=
  if bool_decide (PermissionValidatorResource cfg = PermissionValidatorTypeSelfSubjectAccessReview)
  then Some SelfSubjectAccessReviewStrategy
  else if bool_decide (PermissionValidatorResource cfg
                       = PermissionValidatorTypeSelfSubjectRulesReview)
  then Some SelfSubjectRulesReviewStrategy
  else None.

(** *** Requests and answers of the cluster API *)

(** [authv1.ResourceAttributes] *)
Record ResourceAttributes : Type := MkResourceAttributes {
  attr_Namespace : string;
  attr_Verb : string;
  attr_Group : string;
  attr_Version : string;
  attr_Resource : string;
  attr_Name : string
}.

(** [authv1.SubjectAccessReviewStatus] *)
Record SubjectAccessReviewStatus : Type := MkSubjectAccessReviewStatus {
  Allowed : bool;
  EvaluationError : string
}.

(** [rbacv1.PolicyRule] *)
Record PolicyRule : Type := MkPolicyRule {
  Verbs : list string;
  APIGroups : list string;
  Resources : list string;
  ResourceNames : list string;
  NonResourceURLs : list string
}.

(** [authv1.ResourceRule] *)
Record ResourceRule : Type := MkResourceRule {
  rr_Verbs : list string;
  rr_APIGroups : list string;
  rr_Resources : list string;
  rr_ResourceNames : list string
}.

(** [authv1.NonResourceRule] *)
Record NonResourceRule : Type := MkNonResourceRule {
  nrr_Verbs : list string;
  nrr_NonResourceURLs : list string
}.

(** [authv1.SubjectRulesReviewStatus] *)
Record SubjectRulesReviewStatus : Type := MkSubjectRulesReviewStatus {
  ResourceRules : list ResourceRule;
  NonResourceRules : list NonResourceRule;
  Incomplete : bool
}.

(** [authorizer.AttributesRecord], the fields the package sets. *)
Record AttributesRecord : Type := MkAttributesRecord {
  ar_Verb : string;
  ar_Name : string;
  ar_Namespace : string;
  ar_Resource : string;
  ar_APIGroup : string;
  ar_ResourceRequest : bool
}.

(** [rbacv1.RoleRef] *)
Record RoleRef : Type := MkRoleRef {
  ref_Kind : string;
  ref_Name : string
}.

(** [rbacv1.RoleBinding] *)
Record RoleBinding : Type := MkRoleBinding {
  rb_Namespace : string;
  rb_Name : string;
  rb_RoleRef : RoleRef
}.

(** [rbacv1.ClusterRoleBinding] *)
Record ClusterRoleBinding : Type := MkClusterRoleBinding {
  crb_Name : string;
  crb_RoleRef : RoleRef
}.

(** [ctlres.Resource], by the answers of the accessors the package
    calls; the typed conversions are collaborators below. *)
Record Resource : Type := MkResource {
  res_Group : string;
  res_Version : string;
  res_Kind : string;
  res_Namespace : string;
  res_Name : string
}.

(** [ctldgraph.ActualChangeOp]; [ActualChangeOpNoop] stands for every
    value the switch of [Run] has no case for. *)
Inductive ActualChangeOp : Type :=
  | ActualChangeOpDelete
  | ActualChangeOpUpsert
  | ActualChangeOpNoop.

(** A change of the graph: [change.Change.Op()] and
    [change.Change.Resource()]. *)
Record Change : Type := MkChange {
  Op : ActualChangeOp;
  ChangeResource : Resource
}.

(** [SelfSubjectRulesReviewValidator]. The client is kept as the list of
    the namespaces it has been asked about so far, oldest first; the
    mutex is held for the whole of a call and calls are taken one after
    the other. *)
Record SelfSubjectRulesReviewValidator : Type := MkSelfSubjectRulesReviewValidator {
  ssrrClient : list string;
  cache : gmap string (list PolicyRule)
}.

Definition NewSelfSubjectRulesReviewValidator : SelfSubjectRulesReviewValidator :=
  MkSelfSubjectRulesReviewValidator [] ∅.

Section Collaborators.

(** [ssarClient.Create]: an error, a nil review, or a review's status. *)
Variable ssar_Create : ResourceAttributes -> result (option SubjectAccessReviewStatus).

(** [ssrrClient.Create] for a namespace, given the requests the client
    answered before. *)
Variable ssrr_Create : list string -> string -> result SubjectRulesReviewStatus.

(** [rbacauthorizer.RulesAllow] of the Kubernetes RBAC authorizer. *)
Variable RulesAllow : AttributesRecord -> list PolicyRule -> bool.

(** [mapper.RESTMapping(res.GroupKind(), res.GroupVersion().Version)]:
    the group, version and resource of [mapping.Resource]. *)
Variable RESTMapping : string -> string -> string -> result (string * string * string).

(** [res.AsTypedObj] into a [RoleBinding] and into a [ClusterRoleBinding]. *)
Variable AsTypedRoleBinding : Resource -> result RoleBinding.
Variable AsTypedClusterRoleBinding : Resource -> result ClusterRoleBinding.

(** [rbacClient.ClusterRoles().Get(name)] and
    [rbacClient.Roles(namespace).Get(name)]: the [Rules] of the role. *)
Variable ClusterRoles_Get : string -> result (list PolicyRule).
Variable Roles_Get : string -> string -> result (list PolicyRule).

(** *** The direct strategy *)

Definition SelfSubjectAccessReviewValidator_ValidatePermissions
    (resourceAttrib : ResourceAttributes) : option error :=
  match ssar_Create resourceAttrib with
  | inl err => Some err
  | inr None => Some ErrReviewIsNil
  | inr (Some status) =>
      if negb (bool_decide (EvaluationError status = "")) then
        Some (ErrEvaluation (EvaluationError status))
      else if negb (Allowed status) then
        Some (ErrNotPermitted (attr_Verb resourceAttrib) (attr_Group resourceAttrib)
                              (attr_Version resourceAttrib) (attr_Resource resourceAttrib))
      else None
  end.

(** *** The cached strategy *)

(** The rules stored for a namespace: the resource rules, then the
    non-resource rules. *)
Definition rules_of_status (status : SubjectRulesReviewStatus) : list PolicyRule :=
  map (fun rule => MkPolicyRule (rr_Verbs rule) (rr_APIGroups rule) (rr_Resources rule)
                                (rr_ResourceNames rule) []) (ResourceRules status)
  ++ map (fun rule => MkPolicyRule (nrr_Verbs rule) [] [] [] (nrr_NonResourceURLs rule))
         (NonResourceRules status).

Definition normalize_namespace (ns : string) : string :=
  if bool_decide (ns = "") then "default" else ns.

(** The [if _, ok := rv.cache[ns]; !ok { ... }] block: the validator as
    the block leaves it, and the error it returns early with, if any. *)
Definition populate_cache (rv : SelfSubjectRulesReviewValidator) (ns : string)
  : SelfSubjectRulesReviewValidator * option error :=
  match cache rv !! ns with
  | Some _ => (rv, None)
  | None =>
      let asked := ssrrClient rv ++ [ns] in
      match ssrr_Create (ssrrClient rv) ns with
      | inl err => (MkSelfSubjectRulesReviewValidator asked (cache rv),
                    Some (ErrCreatingRulesReview err))
      | inr status =>
          if Incomplete status then
            (MkSelfSubjectRulesReviewValidator asked (cache rv), Some ErrRulesReviewIncomplete)
          else
            (MkSelfSubjectRulesReviewValidator asked (<[ns := rules_of_status status]> (cache rv)),
             None)
      end
  end.

Definition SelfSubjectRulesReviewValidator_ValidatePermissions
    (rv : SelfSubjectRulesReviewValidator) (resourceAttrib : ResourceAttributes)
  : SelfSubjectRulesReviewValidator * option error :=
  let ns := normalize_namespace (attr_Namespace resourceAttrib) in
  match populate_cache rv ns with
  | (rv', Some err) => (rv', Some err)
  | (rv', None) =>
      let rules := default [] (cache rv' !! ns) in
      if negb (RulesAllow (MkAttributesRecord (attr_Verb resourceAttrib)
                             (attr_Name resourceAttrib) (attr_Namespace resourceAttrib)
                             (attr_Resource resourceAttrib) (attr_Group resourceAttrib) true)
                          rules)
      then (rv', Some (ErrNotPermitted (attr_Verb resourceAttrib) (attr_Group resourceAttrib)
                         (attr_Version resourceAttrib) (attr_Resource resourceAttrib)))
      else (rv', None)
  end.

(** A series of checks on one validator, as one run makes them. *)
Fixpoint validate_all (rv : SelfSubjectRulesReviewValidator) (checks : list ResourceAttributes)
  : SelfSubjectRulesReviewValidator * list (option error) :=
  match checks with
  | [] => (rv, [])
  | resourceAttrib :: rest =>
      let '(rv', err) := SelfSubjectRulesReviewValidator_ValidatePermissions rv resourceAttrib in
      let '(rv'', errs) := validate_all rv' rest in
      (rv'', err :: errs)
  end.

(** *** The basic validator *)

(** [BasicValidator.Validate] over a permission check [validatePermissions]. *)
Definition BasicValidator_Validate {St : Type}
    (validatePermissions : ResourceAttributes -> St -> St * option error)
    (res : Resource) (verb : string) (st : St) : St * option error :=
  match RESTMapping (res_Group res) (res_Kind res) (res_Version res) with
  | inl err => (st, Some err)
  | inr (group, version, resource) =>
      validatePermissions
        (MkResourceAttributes (res_Namespace res) verb group version resource (res_Name res)) st
  end.

(** *** Rules of a binding *)

Definition RulesForRoleBinding (rb : RoleBinding) : result (list PolicyRule) :=
  if bool_decide (ref_Kind (rb_RoleRef rb) = "ClusterRole") then
    match ClusterRoles_Get (ref_Name (rb_RoleRef rb)) with
    | inl err => inl (ErrFetchingClusterRoleForRoleBinding (ref_Name (rb_RoleRef rb))
                                                           (rb_Name rb) err)
    | inr rules => inr rules
    end
  else if bool_decide (ref_Kind (rb_RoleRef rb) = "Role") then
    match Roles_Get (rb_Namespace rb) (ref_Name (rb_RoleRef rb)) with
    | inl err => inl (ErrFetchingRoleForRoleBinding (ref_Name (rb_RoleRef rb)) (rb_Name rb) err)
    | inr rules => inr rules
    end
  else inl (ErrUnknownRoleReferenceKind (ref_Kind (rb_RoleRef rb))).

Definition RulesForClusterRoleBinding (crb : ClusterRoleBinding) : result (list PolicyRule) :=
  match ClusterRoles_Get (ref_Name (crb_RoleRef crb)) with
  | inl err => inl (ErrFetchingClusterRoleForClusterRoleBinding (ref_Name (crb_RoleRef crb))
                                                                (crb_Name crb) err)
  | inr rules => inr rules
  end.

Definition RulesForBinding (res : Resource) : result (list PolicyRule) :=
  if bool_decide (res_Kind res = "RoleBinding") then
    match AsTypedRoleBinding res with
    | inl err => inl (ErrConvertingRoleBinding err)
    | inr roleBinding => RulesForRoleBinding roleBinding
    end
  else if bool_decide (res_Kind res = "ClusterRoleBinding") then
    match AsTypedClusterRoleBinding res with
    | inl err => inl (ErrConvertingClusterRoleBinding err)
    | inr roleBinding => RulesForClusterRoleBinding roleBinding
    end
  else inl (ErrUnknownBindingKind (res_Kind res)).

(** *** The preflight run *)

(** What the checks of a run act on: the cluster as the validators see
    it and the cache of the permission validator. *)
Variable World : Type.

(** The composite validator [Run] builds around the chosen permission
    validator. [NewCompositeValidator] and the role and binding validators
    it dispatches to are not among the sources at hand, so the validator
    is taken as given: [Validate(ctx, res, verb)] acts on the world and
    answers with an error or nil. *)
Variable NewCompositeValidator :
  option PermissionValidator -> Resource -> string -> World -> World * option error.

(** [if err != nil { errorSet = append(errorSet, err) }] *)
Definition append_err (errorSet : list error) (err : option error) : list error :=
  match err with
  | Some e => errorSet ++ [e]
  | None => errorSet
  end.

(** [for _, change := range changeGraph.All() { ... }] *)
Fixpoint run_changes (validator : Resource -> string -> World -> World * option error)
    (changes : list Change) (w : World) (errorSet : list error) : World * list error :=
  match changes with
  | [] => (w, errorSet)
  | change :: rest =>
      match Op change with
      | ActualChangeOpDelete =>
          let '(w, err) := validator (ChangeResource change) "delete" w in
          let errorSet := append_err errorSet err in
          run_changes validator rest w errorSet
      | ActualChangeOpUpsert =>
          let '(w, err) := validator (ChangeResource change) "create" w in
          let errorSet := append_err errorSet err in
          let '(w, err) := validator (ChangeResource change) "update" w in
          let errorSet := append_err errorSet err in
          run_changes validator rest w errorSet
      | ActualChangeOpNoop => run_changes validator rest w errorSet
      end
  end.

Definition Run (p : Preflight) (changeGraph : list Change) (w : World) : World * option error :=
  match CoreClient (depsFactory p) with
  | Some err => (w, Some err)
  | None =>
      match RESTMapper (depsFactory p) with
      | Some err => (w, Some err)
      | None =>
          let permissionValidator := select_permission_validator (config p) in
          let validator := NewCompositeValidator permissionValidator in
          let '(w, errorSet) := run_changes validator changeGraph w [] in
          if 0 <? length errorSet then (w, Some (ErrJoin errorSet)) else (w, None)
      end
  end.

(** *** The run as the spec words it *)

(** The verbs an operation requires. *)
Definition required_verbs (op : ActualChangeOp) : list string :=
  match op with
  | ActualChangeOpDelete => ["delete"]
  | ActualChangeOpUpsert => ["create"; "update"]
  | ActualChangeOpNoop => []
  end.

(** The checks a change graph calls for, in the order of its changes. *)
Definition planned_checks (changeGraph : list Change) : list (Resource * string) :=
  flat_map (fun change => map (pair (ChangeResource change)) (required_verbs (Op change)))
           changeGraph.

(** Every check made, one after the other, every failure kept. *)
Fixpoint check_all (validator : Resource -> string -> World -> World * option error)
    (checks : list (Resource * string)) (w : World) : World * list error :=
  match checks with
  | [] => (w, [])
  | (res, verb) :: rest =>
      let '(w, err) := validator res verb w in
      let '(w, errs) := check_all validator rest w in
      (w, option_list err ++ errs)
  end.

(** Whether the bulk query for a namespace, after the given earlier
    queries, comes back without error and complete. *)
Definition answered_complete (asked : list string) (ns : string) : bool :=
  match ssrr_Create asked ns with
  | inr status => negb (Incomplete status)
  | inl _ => false
  end.

(** The verdict of the local rule evaluation on the rules of a
    namespace. *)
Definition verdict (resourceAttrib : ResourceAttributes) (rules : list PolicyRule)
  : option error :=
  if RulesAllow (MkAttributesRecord (attr_Verb resourceAttrib) (attr_Name resourceAttrib)
                   (attr_Namespace resourceAttrib) (attr_Resource resourceAttrib)
                   (attr_Group resourceAttrib) true) rules
  then None
  else Some (ErrNotPermitted (attr_Verb resourceAttrib) (attr_Group resourceAttrib)
               (attr_Version resourceAttrib) (attr_Resource resourceAttrib)).

(** Every query that was answered completely has its namespace in the
    cache. *)
Definition answers_cached (rv : SelfSubjectRulesReviewValidator) : Prop :=
  forall i ns, ssrrClient rv !! i = Some ns ->
               answered_complete (take i (ssrrClient rv)) ns = true ->
               is_Some (cache rv !! ns).

(** A namespace is asked about again only when the earlier query for it
    was not answered completely. *)
Definition asked_again_after_failure (rv : SelfSubjectRulesReviewValidator) : Prop :=
  forall i j ns, i < j ->
                 ssrrClient rv !! i = Some ns -> ssrrClient rv !! j = Some ns ->
                 answered_complete (take i (ssrrClient rv)) ns = false.

End Collaborators.

Arguments append_err : simpl nomatch.
Arguments run_changes {World}.
Arguments Run {World}.
Arguments check_all {World}.

End Permissions.

(** ** Property names and paths *)

Module CRDUpgradeSafetyPaths.
Import CRDUpgradeSafety.

(** Whether a property name has no dot in it. *)
Fixpoint no_dot (name : string) : bool :=
  match name with
  | EmptyString => true
  | String c rest => negb (bool_decide (String c EmptyString = ".")) && no_dot rest
  end.

(** Whether no property name of a tree, at any depth, has a dot in it. *)
Fixpoint names_without_dot (s : JSONSchemaProps) : bool :=
  match Properties s with
  | None => true
  | Some ps =>
      map_fold (fun name child acc => acc && (no_dot name && names_without_dot child)) true ps
  end.

(** What follows the path of a node in the path of a node below it: a
    dot and more, or nothing for the node itself. *)
Definition path_tail (r : string) : Prop := r = "" \/ exists r', r = "." +:+ r'.

(** The paths below a node, when no name has a dot: no path twice, and
    each the path of the node followed by a tail. *)
Definition tidy_paths (s : JSONSchemaProps) : Prop :=
  forall path, NoDup (node_paths path s)
               /\ forall p, p ∈ node_paths path s -> exists r, p = path +:+ r /\ path_tail r.

End CRDUpgradeSafetyPaths.

(** ** Rules of a role *)

Module PermissionsRoles.
Import Permissions.

(** The errors of [RulesForRole]. *)
Inductive role_error : Type :=
  (** ["converting resource to typed Role object: %w"] *)
  | ErrConvertingRole (cause : error)
  (** ["converting resource to typed ClusterRole object: %w"] *)
  | ErrConvertingClusterRole (cause : error)
  (** ["unknown role kind %q"] *)
  | ErrUnknownRoleKind (kind : string).

Section Conversions.

(** [res.AsTypedObj] into a [Role] and into a [ClusterRole]: the [Rules]
    of the typed object. *)
Variable AsTypedRole : Resource -> result (list PolicyRule).
Variable AsTypedClusterRole : Resource -> result (list PolicyRule).

Definition RulesForRole (res : Resource) : role_error + list PolicyRule :=
  if bool_decide (res_Kind res = "Role") then
    match AsTypedRole res with
    | inl err => inl (ErrConvertingRole err)
    | inr rules => inr rules
    end
  else if bool_decide (res_Kind res = "ClusterRole") then
    match AsTypedClusterRole res with
    | inl err => inl (ErrConvertingClusterRole err)
    | inr rules => inr rules
    end
  else inl (ErrUnknownRoleKind (res_Kind res)).

End Conversions.

End PermissionsRoles.

(** ** Resource filter flags *)

Module Tools.

(** The one error of [Times]: ["Expected age filter to be either empty or
    parseable time.Duration ..."]. *)
Inductive error : Type :=
  | ErrAgeFilter
  (** an error of [ctlres.NewBoolFilterFromString] *)
  | ErrBoolFilter (msg : string).

(** [ctlres.ResourceFilter], by the fields [ResourceFilter] writes: the
    two creation-time bounds (nil or an instant, in nanoseconds) and the
    boolean filter (nil or a parsed filter); the fields the flags fill are
    kept together. *)
Record ResourceFilter {Selectors BoolFilter : Type} : Type := MkResourceFilter {
  CreatedAtAfterTime : option Z;
  CreatedAtBeforeTime : option Z;
  selectors : Selectors;
  BoolFilter_ : option BoolFilter
}.
Arguments ResourceFilter : clear implicits.
Arguments MkResourceFilter {Selectors BoolFilter}.

Record ResourceFilterFlags {Selectors BoolFilter : Type} : Type := MkResourceFilterFlags {
  Age : string;
  Rf : ResourceFilter Selectors BoolFilter;
  Bf : string
}.
Arguments ResourceFilterFlags : clear implicits.
Arguments MkResourceFilterFlags {Selectors BoolFilter}.

(** [s.Age[lastIdx]] and [s.Age[:lastIdx]]: the last byte of a non-empty
    string and what stands before it. *)
Fixpoint split_last (age : string) : option (string * Ascii.ascii) :=
  match age with
  | EmptyString => None
  | String c rest =>
      match split_last rest with
      | None => Some (EmptyString, c)
      | Some (front, last) => Some (String c front, last)
      end
  end.

(** [-dur] on a [time.Duration], an [int64]. *)
Definition neg_int64 (dur : Z) : Z :=
  if bool_decide (dur = - 2 ^ 63)%Z then dur else (- dur)%Z.

Section Clock.

Context {Selectors BoolFilter : Type}.

(** [time.ParseDuration]: the duration in nanoseconds, or an error,
    which [Times] drops. *)
Variable ParseDuration : string -> option Z.

(** [time.Now().UTC()], in nanoseconds. *)
Variable now : Z.

(** [ctlres.NewBoolFilterFromString] *)
Variable NewBoolFilterFromString : string -> error + BoolFilter.

(** The selectors of the zero [ctlres.ResourceFilter{}]. *)
Variable no_selectors : Selectors.

Definition Times (s : ResourceFilterFlags Selectors BoolFilter)
  : option Z * option Z * option error :=
  match split_last (Age s) with
  | None => (None, None, None)
  | Some (front, last) =>
      let '(ageStr, ageOlder) :=
        if bool_decide (String last EmptyString = "+") then (front, true)
        else if bool_decide (String last EmptyString = "-") then (front, false)
        else ("", false) in
      match ParseDuration ageStr with
      | Some dur =>
          let t1 := (now + neg_int64 dur)%Z in
          if ageOlder then (Some t1, None, None) else (None, Some t1, None)
      | None => (None, None, Some ErrAgeFilter)
      end
  end.

Definition ResourceFilterFlags_ResourceFilter (s : ResourceFilterFlags Selectors BoolFilter)
  : ResourceFilter Selectors BoolFilter * option error :=
  let empty := MkResourceFilter None None no_selectors None in
  match Times s with
  | (_, _, Some err) => (empty, Some err)
  | (createdAtBeforeTime, createdAtAfterTime, None) =>
      let rf := MkResourceFilter createdAtAfterTime createdAtBeforeTime
                  (selectors (Rf s)) (BoolFilter_ (Rf s)) in
      if 0 <? String.length (Bf s) then
        match NewBoolFilterFromString (Bf s) with
        | inl err => (empty, Some err)
        | inr boolFilter =>
            (MkResourceFilter createdAtAfterTime createdAtBeforeTime
               (selectors (Rf s)) (Some boolFilter), None)
        end
      else (rf, None)
  end.

End Clock.

End Tools.

(** ** Sample inputs *)

Module Samples.
Import CRDUpgradeSafety.

(** The visiting order that follows [map_to_list]. *)
Definition canonical_range : forall A : Type, gmap string A -> list (string * A) :=
  fun A m => map_to_list m.

(** A node that has only an identifier. *)
Definition with_id (id : string) : JSONSchemaProps :=
  MkJSONSchemaProps id "" None None None None.

(** A node that has only child nodes. *)
Definition with_properties (ps : gmap string JSONSchemaProps) : JSONSchemaProps :=
  MkJSONSchemaProps "" "" None None None (Some ps).

(** A node that has only enum values. *)
Definition with_enum (values : list string) : JSONSchemaProps :=
  MkJSONSchemaProps "" "" None (Some values) None None.

(** A node that has only required names. *)
Definition with_required (names : list string) : JSONSchemaProps :=
  MkJSONSchemaProps "" "" None None (Some names) None.

(** Two nodes that differ in a child node only, as in the differ's test
    ["diff in child properties only, no diff returned, no error"]. *)
Definition parent_bar : JSONSchemaProps := with_properties {[ "bar" := with_id "bar" ]}.
Definition parent_baz : JSONSchemaProps := with_properties {[ "bar" := with_id "baz" ]}.

(** An old flat schema with a changed field and a removed field. *)
Definition flat_old_two : FlatSchema := {[ "^.a" := with_id "x"; "^.b" := empty_props ]}.
Definition flat_new_one : FlatSchema := {[ "^.a" := with_id "y" ]}.

(** A schema in which a property name contains a dot: the root has the
    properties [a], itself with a property [b], and [a.b]. *)
Definition dotted_schema : JSONSchemaProps :=
  with_properties {[ "a" := with_properties {[ "b" := with_id "inner" ]};
                     "a.b" := with_id "dotted" ]}.

(** The schema of the flattener's test. *)
Definition test_schema : JSONSchemaProps :=
  with_properties {[ "foo" := with_properties {[ "bar" := empty_props ]};
                     "baz" := empty_props ]}.

(** Diffs of the validations' tests. *)
Definition enum_grown : FieldDiff := MkFieldDiff (with_enum ["foo"]) (with_enum ["foo"; "bar"]).
Definition enum_shrunk : FieldDiff := MkFieldDiff (with_enum ["foo"; "bar"]) (with_enum ["bar"]).
Definition enum_introduced : FieldDiff := MkFieldDiff empty_props (with_enum ["foo"]).
Definition id_changed : FieldDiff := MkFieldDiff (with_id "bar") (with_id "baz").
Definition required_grown : FieldDiff :=
  MkFieldDiff (with_required ["a"]) (with_required ["a"; "b"]).
Definition required_shrunk : FieldDiff :=
  MkFieldDiff (with_required ["a"; "b"]) (with_required ["a"]).
Definition required_introduced : FieldDiff := MkFieldDiff empty_props (with_required ["a"]).

(** A validator with the two validations of the package. *)
Definition both_validations : ChangeValidator :=
  MkChangeValidator [EnumChangeValidation; RequiredFieldChangeValidation].

(** *** Permissions *)

(** A configuration that names the cached strategy. *)
Definition rules_review_config : Permissions.CheckConfig :=
  {[ "permissionValidatorResource" := Permissions.AnyString "SelfSubjectRulesReview" ]}.

(** A dependency factory whose two calls succeed. *)
Definition working_deps : Permissions.DepsFactory := Permissions.MkDepsFactory None None.

(** A cluster whose bulk rules query always comes back incomplete. *)
Definition always_incomplete (asked : list string) (ns : string)
  : Permissions.result Permissions.SubjectRulesReviewStatus :=
  inr (Permissions.MkSubjectRulesReviewStatus [] [] true).

(** A cluster that lets the caller do everything in every namespace. *)
Definition grant_everything (asked : list string) (ns : string)
  : Permissions.result Permissions.SubjectRulesReviewStatus :=
  inr (Permissions.MkSubjectRulesReviewStatus
         [Permissions.MkResourceRule ["*"] ["*"] ["*"] []] [] false).

(** A rule evaluation that allows when some rule lists the verb or [*]. *)
Definition verb_listed (a : Permissions.AttributesRecord) (rules : list Permissions.PolicyRule)
  : bool :=
  existsb (fun rule => existsb (fun v => bool_decide (v = "*")
                                         || bool_decide (v = Permissions.ar_Verb a))
                               (Permissions.Verbs rule)) rules.

(** A check of [get] on config maps in a namespace. *)
Definition get_configmaps (ns : string) : Permissions.ResourceAttributes :=
  Permissions.MkResourceAttributes ns "get" "" "v1" "configmaps" "settings".

(** A cluster role binding whose role reference has a kind nobody knows. *)
Definition odd_binding_resource : Permissions.Resource :=
  Permissions.MkResource "rbac.authorization.k8s.io" "v1" "ClusterRoleBinding" "" "odd".

Definition odd_binding : Permissions.ClusterRoleBinding :=
  Permissions.MkClusterRoleBinding "odd" (Permissions.MkRoleRef "Bogus" "admin").

Definition admin_rules : list Permissions.PolicyRule :=
  [Permissions.MkPolicyRule ["*"] ["*"] ["*"] [] []].

(** Collaborators of the rule resolvers: conversions that succeed, a
    cluster with a cluster role [admin] and a role [reader] in [dev]. *)
Definition convert_role_binding (res : Permissions.Resource)
  : Permissions.result Permissions.RoleBinding :=
  inr (Permissions.MkRoleBinding (Permissions.res_Namespace res) (Permissions.res_Name res)
         (Permissions.MkRoleRef "Role" "reader")).

Definition convert_cluster_role_binding (res : Permissions.Resource)
  : Permissions.result Permissions.ClusterRoleBinding :=
  inr (Permissions.MkClusterRoleBinding (Permissions.res_Name res)
         (Permissions.MkRoleRef "Bogus" "admin")).

Definition get_cluster_role (name : string) : Permissions.result (list Permissions.PolicyRule) :=
  if bool_decide (name = "admin") then inr admin_rules
  else inl (Permissions.ErrOther "clusterroles not found").

Definition get_role (ns name : string) : Permissions.result (list Permissions.PolicyRule) :=
  if bool_decide (ns = "dev") && bool_decide (name = "reader")
  then inr [Permissions.MkPolicyRule ["get"] [""] ["configmaps"] [] []]
  else inl (Permissions.ErrOther "roles not found").

(** A composite validator over a world without state: the caller may do
    everything but create. *)
Definition all_but_create (pv : option Permissions.PermissionValidator)
    (res : Permissions.Resource) (verb : string) (w : unit) : unit * option Permissions.error :=
  if bool_decide (verb = "create")
  then (w, Some (Permissions.ErrNotPermitted verb (Permissions.res_Group res)
                   (Permissions.res_Version res) "deployments"))
  else (w, None).

Definition a_deployment : Permissions.Resource :=
  Permissions.MkResource "apps" "v1" "Deployment" "dev" "web".

(** *** CRDs *)

(** A CRD with the schema of the flattener's test in its one version,
    the same CRD with the property [foo] taken out, and a CRD without
    versions. *)
Definition crd_with_foo : CustomResourceDefinition :=
  MkCRD [MkVersion "v1alpha1" (Some test_schema)].

Definition crd_without_foo : CustomResourceDefinition :=
  MkCRD [MkVersion "v1alpha1" (Some (with_properties {[ "baz" := empty_props ]}))].

Definition crd_without_versions : CustomResourceDefinition := MkCRD [].

(** A validation that claims every diff and finds nothing wrong. *)
Definition claim_everything : ChangeValidation := fun diff => (diff, (true, None)).

(** A validator that holds rules for [dev] and has asked about it. *)
Definition validator_with_dev : Permissions.SelfSubjectRulesReviewValidator :=
  Permissions.MkSelfSubjectRulesReviewValidator ["dev"] {[ "dev" := admin_rules ]}.

(** Conversions into roles that succeed. *)
Definition convert_role (res : Permissions.Resource)
  : Permissions.result (list Permissions.PolicyRule) := inr admin_rules.

(** An access review that allows everything but [create], and a REST
    mapper that knows deployments only. *)
Definition review_all_but_create (attrs : Permissions.ResourceAttributes)
  : Permissions.result (option Permissions.SubjectAccessReviewStatus) :=
  inr (Some (Permissions.MkSubjectAccessReviewStatus
               (negb (bool_decide (Permissions.attr_Verb attrs = "create"))) "")).

Definition map_deployments (group kind version : string)
  : Permissions.result (string * string * string) :=
  if bool_decide (kind = "Deployment") then inr (group, version, "deployments")
  else inl (Permissions.ErrOther "no matches for kind").

(** *** Resource filter flags *)

(** A duration parser that knows two durations and rejects the rest,
    the empty string among it, as [time.ParseDuration] does. *)
Definition two_durations (text : string) : option Z :=
  if bool_decide (text = "5m") then Some 300000000000%Z
  else if bool_decide (text = "1s") then Some 1000000000%Z
  else None.

(** A boolean-filter parser that accepts nothing but [{}]. *)
Definition braces_only (text : string) : Tools.error + unit :=
  if bool_decide (text = "{}") then inr tt else inl (Tools.ErrBoolFilter "invalid filter").

Definition flags_with_age (age : string) : Tools.ResourceFilterFlags (list string) unit :=
  Tools.MkResourceFilterFlags age (Tools.MkResourceFilter None None ["Pod"] None) "".

End Samples.

(** ** Facts about the CRD upgrade safety package *)

Module CRDUpgradeSafetyFacts.
Import CRDUpgradeSafety Samples.

(** *** Folds over maps *)

Lemma map_fold_and_true {A} (f : string -> A -> bool) (m : gmap string A) :
  map_fold (fun k c acc => acc && f k c) true m = true
  <-> forall k c, m !! k = Some c -> f k c = true.
Proof.
  apply (map_fold_weak_ind
           (fun r m => r = true <-> forall k c, m !! k = Some c -> f k c = true)).
  - split; [|done]. intros _ k c Hk. by rewrite lookup_empty in Hk.
  - intros i x m' r Hi IH. rewrite andb_true_iff, IH. split.
    + intros [Hm Hx] k c. rewrite lookup_insert. case_decide; [naive_solver|auto].
    + intros Hall. split.
      * intros k c Hk. apply Hall. rewrite lookup_insert_ne; [done|]. intros ->. congruence.
      * apply Hall. by rewrite lookup_insert_eq.
Qed.

Lemma map_fold_sum_ge {A} (f : A -> nat) (m : gmap string A) k c :
  m !! k = Some c -> f c <= map_fold (fun _ c acc => f c + acc) 0 m.
Proof.
  revert k c.
  apply (map_fold_weak_ind (fun r m => forall k c, m !! k = Some c -> f c <= r)).
  - intros k c Hk. by rewrite lookup_empty in Hk.
  - intros i x m' r Hi IH k c. rewrite lookup_insert. case_decide.
    + intros [= ->]. lia.
    + intros Hk. specialize (IH _ _ Hk). lia.
Qed.

Lemma count_nodes_child s ps k c :
  Properties s = Some ps -> ps !! k = Some c -> count_nodes c < count_nodes s.
Proof.
  intros Hp Hk. destruct s as [i t d e r p]. simpl in *. subst p.
  pose proof (map_fold_sum_ge count_nodes ps k c Hk). lia.
Qed.

(** *** Deep equality is equality of content *)

Lemma deep_equal_spec a b : deep_equal a b = true <-> a = b.
Proof.
  remember (count_nodes a) as n eqn:Hn. revert a b Hn.
  induction n as [n IH] using lt_wf_ind. intros a b ->.
  destruct a as [i t d e r p], b as [i' t' d' e' r' p']. simpl.
  rewrite !andb_true_iff, !bool_decide_eq_true. split.
  - intros [[[[[-> ->] ->] ->] ->] Hp]. f_equal.
    destruct p as [ma|], p' as [mb|]; try done.
    f_equal. apply andb_true_iff in Hp as [Hd Hf].
    apply bool_decide_eq_true in Hd. rewrite map_fold_and_true in Hf.
    apply map_eq. intros k. destruct (ma !! k) as [ca|] eqn:Hk.
    + specialize (Hf k ca Hk). destruct (mb !! k) as [cb|] eqn:Hk'; [|done].
      f_equal. eapply (IH (count_nodes ca)); [|reflexivity|exact Hf].
      eapply (count_nodes_child (MkJSONSchemaProps i' t' d' e' r' (Some ma))); [done|exact Hk].
    + apply not_elem_of_dom in Hk. rewrite Hd in Hk. by apply not_elem_of_dom in Hk.
  - intros [= <- <- <- <- <- <-]. repeat split; try done.
    destruct p as [ma|]; [|done].
    apply andb_true_iff. split; [by apply bool_decide_eq_true|].
    apply map_fold_and_true. intros k c Hk. rewrite Hk.
    eapply (IH (count_nodes c)); [|reflexivity|reflexivity].
    eapply (count_nodes_child (MkJSONSchemaProps i t d e r (Some ma))); [done|exact Hk].
Qed.

Lemma deep_equal_false a b : deep_equal a b = false <-> a <> b.
Proof.
  rewrite <- deep_equal_spec. destruct (deep_equal a b); split; congruence.
Qed.

#[local] Arguments deep_equal : simpl never.

(** *** The sets the validations build *)

Lemma elem_of_collect_set x l : x ∈ collect_set l <-> x ∈ l.
Proof.
  unfold collect_set.
  assert (forall s : gset string,
    x ∈ foldl (fun s x => if bool_decide (x ∈ s) then s else {[x]} ∪ s) s l
    <-> x ∈ s \/ x ∈ l) as Hgen.
  { induction l as [|y l IH]; intros s; simpl.
    - rewrite elem_of_nil. tauto.
    - rewrite IH, elem_of_cons. case_bool_decide; set_solver. }
  rewrite Hgen. set_solver.
Qed.

Lemma slice_len_0_elems {A} (s : option (list A)) : slice_len s = 0 -> slice_elems s = [].
Proof. destruct s as [[|x l]|]; simpl; [done|lia|done]. Qed.

Lemma size_pos_elem (X : gset string) : 0 < size X <-> exists x, x ∈ X.
Proof.
  split.
  - intros Hs. apply size_pos_elem_of in Hs. set_solver.
  - intros [x Hx]. destruct (decide (size X = 0)) as [Hz|]; [|lia].
    apply size_empty_inv in Hz. set_solver.
Qed.

(** *** The enum and required-field validations *)

Lemma slice_elems_nil_len {A} (s : option (list A)) : slice_elems s = [] <-> slice_len s = 0.
Proof. destruct s as [[|x l]|]; simpl; split; try done; lia. Qed.

Lemma EnumChangeValidation_diff diff :
  diff_after (EnumChangeValidation diff)
  = MkFieldDiff (set_Enum (Some []) (Old diff)) (set_Enum (Some []) (New diff)).
Proof. unfold EnumChangeValidation, enum_handled. by repeat case_match. Qed.

Lemma EnumChangeValidation_handled diff :
  handled_of (EnumChangeValidation diff)
  = deep_equal (set_Enum (Some []) (Old diff)) (set_Enum (Some []) (New diff)).
Proof. unfold EnumChangeValidation, enum_handled. by repeat case_match. Qed.

Lemma EnumChangeValidation_error diff :
  error_of (EnumChangeValidation diff)
  = if (slice_len (Enum (Old diff)) =? 0) && (0 <? slice_len (Enum (New diff)))
    then Some ErrEnumsAdded
    else
      let removed := collect_set (slice_elems (Enum (Old diff)))
                     ∖ collect_set (slice_elems (Enum (New diff))) in
      if 0 <? size removed then Some (ErrEnumValuesRemoved removed) else None.
Proof. unfold EnumChangeValidation, enum_handled. by repeat case_match. Qed.

Lemma RequiredFieldChangeValidation_diff diff :
  diff_after (RequiredFieldChangeValidation diff)
  = MkFieldDiff (set_Required (Some []) (Old diff)) (set_Required (Some []) (New diff)).
Proof. unfold RequiredFieldChangeValidation, required_handled. by repeat case_match. Qed.

Lemma RequiredFieldChangeValidation_handled diff :
  handled_of (RequiredFieldChangeValidation diff)
  = deep_equal (set_Required (Some []) (Old diff)) (set_Required (Some []) (New diff)).
Proof. unfold RequiredFieldChangeValidation, required_handled. by repeat case_match. Qed.

Lemma RequiredFieldChangeValidation_error diff :
  error_of (RequiredFieldChangeValidation diff)
  = if (slice_len (Required (Old diff)) =? 0) && (0 <? slice_len (Required (New diff)))
    then Some ErrRequiredAddedToNone
    else
      let added := collect_set (slice_elems (Required (New diff)))
                   ∖ collect_set (slice_elems (Required (Old diff))) in
      if 0 <? size added then Some (ErrNewRequiredAdded added) else None.
Proof. unfold RequiredFieldChangeValidation, required_handled. by repeat case_match. Qed.

(** Whether the first branch of a validation is taken. *)
Lemma newly_restricted_true {A} (o n : option (list A)) :
  (slice_len o =? 0) && (0 <? slice_len n) = true
  <-> slice_elems o = [] /\ slice_elems n <> [].
Proof.
  rewrite andb_true_iff, Nat.eqb_eq, Nat.ltb_lt, !slice_elems_nil_len. lia.
Qed.

Lemma newly_restricted_false {A} (o n : option (list A)) :
  (slice_len o =? 0) && (0 <? slice_len n) = false
  <-> slice_elems o <> [] \/ slice_elems n = [].
Proof.
  rewrite andb_false_iff, Nat.eqb_neq, Nat.ltb_ge, !slice_elems_nil_len. lia.
Qed.

Lemma elem_of_collected_difference x (l1 l2 : list string) :
  x ∈ collect_set l1 ∖ collect_set l2 <-> x ∈ l1 /\ x ∉ l2.
Proof. by rewrite elem_of_difference, !elem_of_collect_set. Qed.

(** C4. [EnumChangeValidation] returns an error when enum restrictions
    are introduced where there were none, and when a value allowed before
    is no longer allowed, the error then carrying exactly the removed
    values; it returns no error when values are only added to an existing
    restriction or nothing changes; and when the two nodes differ in
    their enum values only, it reports the change as handled. *)
Theorem EnumChangeValidation_judgement (diff : FieldDiff) :
  let r := EnumChangeValidation diff in
  let oldEnum := slice_elems (Enum (Old diff)) in
  let newEnum := slice_elems (Enum (New diff)) in
  (oldEnum = [] -> newEnum <> [] -> error_of r = Some ErrEnumsAdded)
  /\ (forall x, x ∈ oldEnum -> x ∉ newEnum ->
        exists removed, error_of r = Some (ErrEnumValuesRemoved removed)
                        /\ forall y, y ∈ removed <-> y ∈ oldEnum /\ y ∉ newEnum)
  /\ ((oldEnum <> [] \/ newEnum = []) -> (forall x, x ∈ oldEnum -> x ∈ newEnum) ->
        error_of r = None)
  /\ (set_Enum None (Old diff) = set_Enum None (New diff) -> handled_of r = true).
Proof.
  intros r oldEnum newEnum. subst r oldEnum newEnum. rewrite EnumChangeValidation_error.
  repeat split.
  - intros Ho Hn. by rewrite (proj2 (newly_restricted_true _ _)).
  - intros x Hx Hnx.
    rewrite (proj2 (newly_restricted_false _ _))
      by (left; intros Hnil; rewrite Hnil in Hx; by apply elem_of_nil in Hx).
    cbv zeta. eexists. split.
    + rewrite (proj2 (Nat.ltb_lt _ _)); [done|].
      apply size_pos_elem. exists x. by apply elem_of_collected_difference.
    + intros y. apply elem_of_collected_difference.
  - intros Hcase Hsub. rewrite (proj2 (newly_restricted_false _ _)) by done.
    cbv zeta. case_match eqn:Hlt; [|done].
    apply Nat.ltb_lt, size_pos_elem in Hlt as [x Hx].
    apply elem_of_collected_difference in Hx as [Hx Hnx]. by apply Hsub in Hx.
  - intros Hsame. rewrite EnumChangeValidation_handled. apply deep_equal_spec.
    destruct (Old diff), (New diff). unfold set_Enum in *. simpl in *. congruence.
Qed.

(** C5. [RequiredFieldChangeValidation] returns an error when names
    become required where none were, and when a name is required that was
    not required before, the error then carrying exactly the added names;
    it returns no error when required names are only removed or nothing
    changes; and when the two nodes differ in their required names only,
    it reports the change as handled. *)
Theorem RequiredFieldChangeValidation_judgement (diff : FieldDiff) :
  let r := RequiredFieldChangeValidation diff in
  let oldRequired := slice_elems (Required (Old diff)) in
  let newRequired := slice_elems (Required (New diff)) in
  (oldRequired = [] -> newRequired <> [] -> error_of r = Some ErrRequiredAddedToNone)
  /\ (forall x, x ∈ newRequired -> x ∉ oldRequired -> exists e, error_of r = Some e)
  /\ (forall x, x ∈ newRequired -> x ∉ oldRequired -> oldRequired <> [] ->
        exists added, error_of r = Some (ErrNewRequiredAdded added)
                      /\ forall y, y ∈ added <-> y ∈ newRequired /\ y ∉ oldRequired)
  /\ ((forall x, x ∈ newRequired -> x ∈ oldRequired) -> error_of r = None)
  /\ (set_Required None (Old diff) = set_Required None (New diff) -> handled_of r = true).
Proof.
  intros r oldRequired newRequired. subst r oldRequired newRequired.
  rewrite RequiredFieldChangeValidation_error.
  set (oldRequired := slice_elems (Required (Old diff))).
  set (newRequired := slice_elems (Required (New diff))).
  assert (forall x, x ∈ newRequired -> x ∉ oldRequired ->
            (0 <? size (collect_set newRequired ∖ collect_set oldRequired)) = true) as Hpos.
  { intros x Hx Hnx. apply Nat.ltb_lt, size_pos_elem. exists x.
    by apply elem_of_collected_difference. }
  repeat split.
  - intros Ho Hn. by rewrite (proj2 (newly_restricted_true _ _)).
  - intros x Hx Hnx. case_match; [by eexists|]. cbv zeta.
    rewrite (Hpos x) by done. by eexists.
  - intros x Hx Hnx Hne. rewrite (proj2 (newly_restricted_false _ _)) by by left.
    cbv zeta. rewrite (Hpos x) by done.
    eexists. split; [done|]. intros y. apply elem_of_collected_difference.
  - intros Hsub.
    rewrite (proj2 (newly_restricted_false _ _)).
    + cbv zeta. case_match eqn:Hlt; [|done].
      apply Nat.ltb_lt, size_pos_elem in Hlt as [x Hx].
      apply elem_of_collected_difference in Hx as [Hx Hnx]. by apply Hsub in Hx.
    + fold oldRequired newRequired. destruct newRequired as [|x l] eqn:Hn; [by right|].
      left. intros Ho. assert (x ∈ oldRequired) as Hx by (apply Hsub; left).
      rewrite Ho in Hx. by apply elem_of_nil in Hx.
  - intros Hsame. rewrite RequiredFieldChangeValidation_handled. apply deep_equal_spec.
    destruct (Old diff), (New diff). unfold set_Required in *. simpl in *. congruence.
Qed.

(** C10. On each of their return paths the two validations clear their
    attribute on both nodes of the diff and leave the rest of the nodes
    alone; the flag they return is true exactly when the two nodes are
    equal after that; and the cleared nodes are what the caller holds
    afterwards and what the next validation of a chain is called on. *)
Theorem validations_clear_in_place (diff : FieldDiff) :
  let e := EnumChangeValidation diff in
  let q := RequiredFieldChangeValidation diff in
  (diff_after e = MkFieldDiff (set_Enum (Some []) (Old diff)) (set_Enum (Some []) (New diff))
   /\ Enum (Old (diff_after e)) = Some [] /\ Enum (New (diff_after e)) = Some []
   /\ (handled_of e = true <-> Old (diff_after e) = New (diff_after e)))
  /\ (diff_after q = MkFieldDiff (set_Required (Some []) (Old diff))
                                 (set_Required (Some []) (New diff))
      /\ Required (Old (diff_after q)) = Some [] /\ Required (New (diff_after q)) = Some []
      /\ (handled_of q = true <-> Old (diff_after q) = New (diff_after q)))
  /\ (forall version field,
        run_diff (run_validations [EnumChangeValidation] version field diff) = diff_after e
        /\ run_diff (run_validations [RequiredFieldChangeValidation] version field diff)
           = diff_after q)
  /\ (forall rest version field,
        handled_of e = false ->
        run_diff (run_validations (EnumChangeValidation :: rest) version field diff)
        = run_diff (run_validations rest version field (diff_after e)))
  /\ (forall rest version field,
        handled_of q = false ->
        run_diff (run_validations (RequiredFieldChangeValidation :: rest) version field diff)
        = run_diff (run_validations rest version field (diff_after q))).
Proof.
  intros e q. subst e q.
  split; [|split; [|split; [|split]]].
  - rewrite EnumChangeValidation_handled, EnumChangeValidation_diff, deep_equal_spec. done.
  - rewrite RequiredFieldChangeValidation_handled, RequiredFieldChangeValidation_diff,
      deep_equal_spec. done.
  - intros version field. simpl. unfold diff_after.
    destruct (EnumChangeValidation diff) as [d1 [[] e1]],
             (RequiredFieldChangeValidation diff) as [d2 [[] e2]]; done.
  - intros rest version field. simpl. unfold handled_of, diff_after.
    destruct (EnumChangeValidation diff) as [d1 [[] e1]]; simpl; [done|]. done.
  - intros rest version field. simpl. unfold handled_of, diff_after.
    destruct (RequiredFieldChangeValidation diff) as [d1 [[] e1]]; simpl; [done|]. done.
Qed.

(** *** The validation chain *)

Lemma run_validations_none_handled validations version field diff :
  (forall j a, chain_answers validations diff !! j = Some a -> fst a = false) ->
  let r := run_validations validations version field diff in
  run_calls r = length validations /\ run_handled r = false
  /\ run_errs r = recorded version field (chain_answers validations diff).
Proof.
  revert diff. induction validations as [|v rest IH]; intros diff Hnone; simpl; [done|].
  simpl in Hnone. destruct (v diff) as [diff' [ok err]] eqn:Hv.
  pose proof (Hnone 0 _ eq_refl) as Hok. simpl in Hok. subst ok.
  destruct (IH diff') as (Hc & Hh & He).
  { intros j a Hj. by apply (Hnone (S j)). }
  simpl. rewrite Hc, Hh, He. repeat split. unfold recorded. simpl. by destruct err.
Qed.

Lemma run_validations_first_handled validations version field diff k err :
  chain_answers validations diff !! k = Some (true, err) ->
  (forall j a, j < k -> chain_answers validations diff !! j = Some a -> fst a = false) ->
  let r := run_validations validations version field diff in
  run_calls r = S k /\ run_handled r = true
  /\ run_errs r = recorded version field (take (S k) (chain_answers validations diff)).
Proof.
  revert diff k. induction validations as [|v rest IH]; intros diff k Hk Hbefore; simpl in *;
    [done|].
  destruct (v diff) as [diff' [ok err']] eqn:Hv. destruct k as [|k]; simpl in *.
  - injection Hk as -> ->. simpl. repeat split. unfold recorded. simpl. by destruct err.
  - pose proof (Hbefore 0 _ ltac:(lia) eq_refl) as Hok. simpl in Hok. subst ok.
    destruct (IH diff' k Hk) as (Hc & Hh & He).
    { intros j a Hj Ha. apply (Hbefore (S j)); [lia|done]. }
    simpl. rewrite Hc, Hh, He. repeat split. unfold recorded. simpl. by destruct err'.
Qed.

Lemma unknown_change_not_recorded version field answers :
  ErrUnknownChange version field ∉ recorded version field answers.
Proof.
  unfold recorded. rewrite list_elem_of_omap. intros (a & _ & Ha).
  destruct (snd a); simpl in Ha; congruence.
Qed.

(** C2. For the diff of one field, [Validate] calls the validations in
    their order and stops after the first one that answers [handled]:
    when validation [k] is the first to do so, exactly [k + 1] validations
    are called, the errors recorded are those of these calls (the one of
    validation [k] among them), and no unknown-change error is added;
    when no validation answers [handled], all of them are called and the
    unknown-change error for the version and the field closes the list,
    whether or not a validation returned an error. *)
Theorem Validate_chain (cv : ChangeValidator) (version field : string) (diff : FieldDiff) :
  let answers := chain_answers (Validations cv) diff in
  let r := run_validations (Validations cv) version field diff in
  (forall k err,
      answers !! k = Some (true, err) ->
      (forall j a, j < k -> answers !! j = Some a -> fst a = false) ->
      run_calls r = S k /\ run_handled r = true
      /\ validate_field cv version field diff = recorded version field (take (S k) answers)
      /\ (forall e, err = Some e ->
            ErrVersionField version field e ∈ validate_field cv version field diff)
      /\ ErrUnknownChange version field ∉ validate_field cv version field diff)
  /\ ((forall j a, answers !! j = Some a -> fst a = false) ->
      run_calls r = length (Validations cv) /\ run_handled r = false
      /\ validate_field cv version field diff
         = recorded version field answers ++ [ErrUnknownChange version field]).
Proof.
  intros answers r. subst answers r. split.
  - intros k err Hk Hbefore.
    destruct (run_validations_first_handled _ version field _ _ _ Hk Hbefore) as (Hc & Hh & He).
    unfold validate_field. rewrite Hh, He. simpl. repeat split; [done| |].
    + intros e ->. unfold recorded. apply list_elem_of_omap.
      exists (true, Some e). split; [|done].
      apply list_elem_of_lookup. exists k. rewrite lookup_take_lt by lia. done.
    + apply unknown_change_not_recorded.
  - intros Hnone.
    destruct (run_validations_none_handled _ version field _ Hnone) as (Hc & Hh & He).
    unfold validate_field. rewrite Hh, He. done.
Qed.

(** What [Validate] returns is the join of what the fields of the
    versions add, or nil when they add nothing. *)
Lemma Validate_joins range cv old new :
  Validate range cv old new
  = match flat_map (validate_version range cv new) (Versions old) with
    | [] => None
    | errs => Some (ErrJoin errs)
    end.
Proof. unfold Validate. by destruct (flat_map _ _). Qed.

(** For a version that the new CRD still has and whose schemas can be
    diffed, the errors are those of the fields of the diff, field by
    field in the order the diff is visited. *)
Lemma validate_version_fields range cv new version newVersion diffs :
  GetVersionByName new (Name version) = Some newVersion ->
  CalculateFlatSchemaDiff range (FlattenSchema (OpenAPIV3Schema version))
    (FlattenSchema (OpenAPIV3Schema newVersion)) = (diffs, None) ->
  validate_version range cv new version
  = flat_map (fun '(field, diff) => validate_field cv (Name version) field diff)
             (range _ diffs).
Proof. intros Hnew Hdiff. unfold validate_version. by rewrite Hnew, Hdiff. Qed.

(** *** The flat schema differ *)

Lemma diff_loop_removed entries n acc :
  (exists f s, (f, s) ∈ entries /\ n !! f = None) ->
  exists f s, (f, s) ∈ entries /\ n !! f = None
              /\ snd (diff_loop entries n acc) = Some (ErrFieldNotFound f).
Proof.
  revert acc. induction entries as [|[f0 s0] rest IH]; intros acc (f & s & Hin & Hf).
  - by apply elem_of_nil in Hin.
  - simpl. destruct (n !! f0) as [s0'|] eqn:Hf0.
    + apply elem_of_cons in Hin as [[= -> ->]|Hin]; [congruence|].
      assert (exists f s, (f, s) ∈ rest /\ n !! f = None) as Hrest by eauto.
      case_match;
        (edestruct IH as (f1 & s1 & Hin1 & Hf1 & He); [exact Hrest|];
         exists f1, s1; split; [by right|]; split; [done|exact He]).
    + exists f0, s0. split; [by left|]. done.
Qed.

Lemma diff_loop_common entries n acc :
  NoDup entries.*1 ->
  (forall f s, (f, s) ∈ entries -> is_Some (n !! f)) ->
  (forall f, f ∈ entries.*1 -> acc !! f = None) ->
  exists diffs, diff_loop entries n acc = (diffs, None)
    /\ forall f d, diffs !! f = Some d <->
         (exists s s', (f, s) ∈ entries /\ n !! f = Some s'
                       /\ own_attributes s <> own_attributes s'
                       /\ d = MkFieldDiff (own_attributes s) (own_attributes s'))
         \/ acc !! f = Some d.
Proof.
  revert acc. induction entries as [|[f0 s0] rest IH]; intros acc Hnd Hin Hacc.
  - exists acc. split; [done|]. intros f d. split; [by right|].
    intros [(s & s' & Hs & _)|]; [by apply elem_of_nil in Hs|done].
  - simpl in *. apply NoDup_cons in Hnd as [Hf0 Hnd].
    destruct (Hin f0 s0) as [s0' Hs0']; [by left|]. rewrite Hs0'.
    destruct (deep_equal (own_attributes s0) (own_attributes s0')) eqn:Heq; simpl.
    + apply deep_equal_spec in Heq.
      destruct (IH acc Hnd) as (diffs & Hrun & Hd).
      { intros f s Hfs. apply (Hin f s). by right. }
      { intros f Hf. apply Hacc. by right. }
      exists diffs. split; [done|]. intros f d. rewrite Hd. split.
      * intros [(s & s' & Hs & Hrest)|?]; [left|by right].
        exists s, s'. split; [by right|done].
      * intros [(s & s' & Hs & Hn & Hne & ->)|?]; [|by right].
        apply elem_of_cons in Hs as [[= -> ->]|Hs].
        -- rewrite Hs0' in Hn. injection Hn as <-. done.
        -- left. by exists s, s'.
    + apply deep_equal_false in Heq.
      destruct (IH (<[f0 := MkFieldDiff (own_attributes s0) (own_attributes s0')]> acc) Hnd)
        as (diffs & Hrun & Hd).
      { intros f s Hfs. apply (Hin f s). by right. }
      { intros f Hf. rewrite lookup_insert_ne; [apply Hacc; by right|]. by intros ->. }
      exists diffs. split; [done|]. intros f d. rewrite Hd. split.
      * intros [(s & s' & Hs & Hrest)|Hins].
        -- left. exists s, s'. split; [by right|done].
        -- rewrite lookup_insert in Hins. case_decide as Hf; [|by right].
           subst f0. injection Hins as <-. left. exists s0, s0'. split; [by left|done].
      * intros [(s & s' & Hs & Hn & Hne & ->)|Haccf].
        -- apply elem_of_cons in Hs as [[= -> ->]|Hs]; [|left; by exists s, s'].
           right. rewrite Hs0' in Hn. injection Hn as <-. by rewrite lookup_insert_eq.
        -- right. rewrite lookup_insert_ne; [done|]. intros ->.
           rewrite Hacc in Haccf; [done|by left].
Qed.

Lemma range_entries {A} range (m : gmap string A) :
  range_ok range ->
  NoDup (range A m).*1 /\ forall f s, (f, s) ∈ range A m <-> m !! f = Some s.
Proof.
  intros Hok. pose proof (Hok A m) as Hperm. unfold range_order in Hperm. split.
  - rewrite Hperm. apply NoDup_fst_map_to_list.
  - intros f s. rewrite Hperm. apply elem_of_map_to_list.
Qed.

Lemma range_singleton {A} range f (x : A) : range_ok range -> range A {[f := x]} = [(f, x)].
Proof.
  intros Hok. pose proof (Hok A {[f := x]}) as Hperm. unfold range_order in Hperm.
  rewrite map_to_list_singleton in Hperm. by apply Permutation_singleton_r in Hperm.
Qed.


Lemma canonical_range_ok : range_ok canonical_range.
Proof. intros A m. unfold range_order, canonical_range. done. Qed.

Lemma diff_singleton range (X : JSONSchemaProps) (n : FlatSchema) :
  range_ok range ->
  CalculateFlatSchemaDiff range {["^.a" := X]} n
  = match n !! "^.a" with
    | None => (∅, Some (ErrFieldNotFound "^.a"))
    | Some Y =>
        if deep_equal (own_attributes X) (own_attributes Y) then (∅, None)
        else ({["^.a" := MkFieldDiff (own_attributes X) (own_attributes Y)]}, None)
    end.
Proof.
  intros Hok. unfold CalculateFlatSchemaDiff. rewrite (range_singleton range) by done.
  simpl. destruct (n !! "^.a") as [Y|]; [|done]. by destruct (deep_equal _ _).
Qed.

(** C3, as the code has it. When a path of the old flat schema is absent
    from the new one, [CalculateFlatSchemaDiff] fails with an error that
    names such a path; otherwise it returns no error and a diff with an
    entry at a path exactly when the old and the new node at that path,
    their child nodes cleared, are unequal, so paths that only the new
    schema has are ignored. In particular [{"^.a": X}] against [{}] fails
    naming [^.a]; against [{"^.a": X}] it gives the empty diff; against
    [{"^.a": Y}] it gives exactly one diff, at [^.a], when [X] and [Y]
    differ outside their child nodes, and the empty diff when they differ
    in their child nodes only. *)
Theorem CalculateFlatSchemaDiff_spec range (o n : FlatSchema) :
  range_ok range ->
  ((exists f, is_Some (o !! f) /\ n !! f = None) ->
     exists f, is_Some (o !! f) /\ n !! f = None
               /\ snd (CalculateFlatSchemaDiff range o n) = Some (ErrFieldNotFound f))
  /\ ((forall f, is_Some (o !! f) -> is_Some (n !! f)) ->
      exists diffs, CalculateFlatSchemaDiff range o n = (diffs, None)
        /\ forall f d, diffs !! f = Some d <->
             exists s s', o !! f = Some s /\ n !! f = Some s'
                          /\ own_attributes s <> own_attributes s'
                          /\ d = MkFieldDiff (own_attributes s) (own_attributes s'))
  /\ (forall X, snd (CalculateFlatSchemaDiff range {["^.a" := X]} ∅)
                = Some (ErrFieldNotFound "^.a"))
  /\ (forall X, CalculateFlatSchemaDiff range {["^.a" := X]} {["^.a" := X]} = (∅, None))
  /\ (forall X Y, own_attributes X <> own_attributes Y ->
        CalculateFlatSchemaDiff range {["^.a" := X]} {["^.a" := Y]}
        = ({["^.a" := MkFieldDiff (own_attributes X) (own_attributes Y)]}, None))
  /\ (forall X Y, own_attributes X = own_attributes Y ->
        CalculateFlatSchemaDiff range {["^.a" := X]} {["^.a" := Y]} = (∅, None)).
Proof.
  intros Hok. destruct (range_entries range o Hok) as [Hnd Hin].
  split; [|split; [|split; [|split; [|split]]]].
  - intros (f & [s Hs] & Hn).
    destruct (diff_loop_removed (range _ o) n ∅) as (f1 & s1 & Hin1 & Hn1 & He).
    { exists f, s. split; [by apply Hin|done]. }
    exists f1. split; [exists s1; by apply Hin|]. done.
  - intros Hall.
    destruct (diff_loop_common (range _ o) n ∅ Hnd) as (diffs & Hrun & Hd).
    { intros f s Hfs. apply Hall. exists s. by apply Hin. }
    { intros f _. apply lookup_empty. }
    exists diffs. split; [done|]. intros f d. rewrite Hd. split.
    + intros [(s & s' & Hs & Hrest)|Hempty]; [|by rewrite lookup_empty in Hempty].
      exists s, s'. split; [by apply Hin|done].
    + intros (s & s' & Hs & Hrest). left. exists s, s'. split; [by apply Hin|done].
  - intros X. by rewrite diff_singleton, lookup_empty.
  - intros X. rewrite diff_singleton, lookup_singleton_eq by done.
    by rewrite (proj2 (deep_equal_spec _ _) eq_refl).
  - intros X Y Hne. rewrite diff_singleton, lookup_singleton_eq by done.
    by rewrite (proj2 (deep_equal_false _ _) Hne).
  - intros X Y Heq. rewrite diff_singleton, lookup_singleton_eq by done.
    by rewrite (proj2 (deep_equal_spec _ _) Heq).
Qed.

(** Two unequal nodes at the same path that differ in their child nodes
    only: the differ records nothing for the path. *)
Lemma CalculateFlatSchemaDiff_children_only :
  parent_bar <> parent_baz
  /\ CalculateFlatSchemaDiff canonical_range {["^.a" := parent_bar]} {["^.a" := parent_baz]}
     = (∅, None)
  /\ size (fst (CalculateFlatSchemaDiff canonical_range
                  {["^.a" := parent_bar]} {["^.a" := parent_baz]})) <> 1.
Proof.
  assert (CalculateFlatSchemaDiff canonical_range {["^.a" := parent_bar]}
            {["^.a" := parent_baz]} = (∅, None)) as Hrun.
  { rewrite diff_singleton, lookup_singleton_eq by apply canonical_range_ok.
    by vm_compute. }
  split; [|split; [done|]].
  - apply deep_equal_false. by vm_compute.
  - rewrite Hrun. by vm_compute.
Qed.

(** When the loop meets a removed path after a changed one, the diff map
    handed back next to the error holds the entry of the changed path;
    the comment of the function announces an empty mapping. *)
Lemma CalculateFlatSchemaDiff_removed_after_changed :
  CalculateFlatSchemaDiff canonical_range flat_old_two flat_new_one
  = ({["^.a" := MkFieldDiff (with_id "x") (with_id "y")]}, Some (ErrFieldNotFound "^.b")).
Proof. by vm_compute. Qed.

(** *** The flattener *)

(** Two folds over the same map stay related when each step keeps them
    related. *)
Lemma map_fold_related {A B C} (R : B -> C -> Prop)
    (f : string -> A -> B -> B) (g : string -> A -> C -> C) b c (m : gmap string A) :
  R b c ->
  (forall i x b c, m !! i = Some x -> R b c -> R (f i x b) (g i x c)) ->
  R (map_fold f b m) (map_fold g c m).
Proof.
  intros Hbase. induction m as [|i x m Hi Hfirst IH] using map_first_key_ind; intros Hstep.
  - by rewrite !map_fold_empty.
  - rewrite !map_fold_insert_first_key by done. apply Hstep; [by rewrite lookup_insert_eq|].
    apply IH. intros j y b' c' Hj. apply Hstep.
    rewrite lookup_insert_ne; [done|]. intros ->. congruence.
Qed.

Lemma SchemaHas_entries s path (acc : FlatSchema) :
  SchemaHas (fun s simpleLocation (fieldMap : FlatSchema) =>
               <[simpleLocation := DeepCopy s]> fieldMap) path s acc
  = foldl record_node acc (node_entries path s).
Proof.
  remember (count_nodes s) as k eqn:Hk. revert s path acc Hk.
  induction k as [k IH] using lt_wf_ind. intros s path acc ->.
  destruct s as [i t d e r [ps|]]; simpl; [|done].
  set (s := MkJSONSchemaProps i t d e r (Some ps)).
  apply (map_fold_related
           (fun (st : FlatSchema) l => st = foldl record_node (record_node acc (path, s)) l)).
  - done.
  - intros name child st l Hchild ->. rewrite foldl_app.
    apply (IH (count_nodes child)); [|reflexivity].
    by apply (count_nodes_child s ps name child).
Qed.

Lemma count_nodes_entries s path : count_nodes s = length (node_entries path s).
Proof.
  remember (count_nodes s) as k eqn:Hk. revert s path Hk.
  induction k as [k IH] using lt_wf_ind. intros s path ->.
  destruct s as [i t d e r [ps|]]; simpl; [|done]. f_equal.
  set (s := MkJSONSchemaProps i t d e r (Some ps)).
  apply (map_fold_related (fun (c : nat) (l : list (string * JSONSchemaProps)) => c = length l)).
  - done.
  - intros name child c l Hchild ->. rewrite length_app.
    rewrite <- (IH (count_nodes child) (count_nodes_child s ps name child eq_refl Hchild)
                   child (child_path path name) eq_refl).
    lia.
Qed.

Lemma recorded_lookup_notin entries (acc : FlatSchema) p :
  p ∉ entries.*1 -> foldl record_node acc entries !! p = acc !! p.
Proof.
  revert acc. induction entries as [|[q nd] rest IH]; intros acc Hp; simpl; [done|].
  simpl in Hp. apply not_elem_of_cons in Hp as [Hne Hp].
  rewrite IH by done. unfold record_node. simpl. by rewrite lookup_insert_ne.
Qed.

Lemma recorded_lookup_nodup entries (acc : FlatSchema) p nd :
  NoDup entries.*1 -> (p, nd) ∈ entries -> foldl record_node acc entries !! p = Some nd.
Proof.
  revert acc. induction entries as [|[q nd'] rest IH]; intros acc Hnd Hin; simpl.
  - by apply elem_of_nil in Hin.
  - simpl in Hnd. apply NoDup_cons in Hnd as [Hq Hnd].
    apply elem_of_cons in Hin as [[= -> ->]|Hin].
    + rewrite recorded_lookup_notin by done. unfold record_node. simpl.
      by rewrite lookup_insert_eq.
    + by apply IH.
Qed.

Lemma recorded_lookup_Some entries (acc : FlatSchema) p nd :
  foldl record_node acc entries !! p = Some nd -> (p, nd) ∈ entries \/ acc !! p = Some nd.
Proof.
  revert acc. induction entries as [|[q nd'] rest IH]; intros acc Hl; simpl in *; [by right|].
  apply IH in Hl as [Hin|Hl]; [left; by right|].
  unfold record_node in Hl. simpl in Hl. rewrite lookup_insert in Hl.
  case_decide; [|by right]. subst q. unfold DeepCopy in Hl. injection Hl as ->. left. by left.
Qed.

Lemma recorded_dom entries (acc : FlatSchema) :
  dom (foldl record_node acc entries) = dom acc ∪ list_to_set entries.*1.
Proof.
  revert acc. induction entries as [|[q nd] rest IH]; intros acc; simpl.
  - set_solver.
  - rewrite IH. unfold record_node. simpl. rewrite dom_insert_L. set_solver.
Qed.

Lemma size_list_to_set_le (l : list string) :
  size (list_to_set (C := gset string) l) <= length l.
Proof.
  induction l as [|x l IH]; [vm_compute; lia|].
  cbn [list_to_set foldr]. change (foldr _ _ l) with (list_to_set (C := gset string) l).
  rewrite size_union_alt, size_singleton.
  pose proof (subseteq_size (list_to_set (C := gset string) l ∖ {[x]}) (list_to_set l)
                ltac:(set_solver)) as Hle.
  simpl. apply le_n_S. etrans; [exact Hle|exact IH].
Qed.

(** What the flattener keeps of a tree: an entry at every path a node
    has and nowhere else, each entry the node of some such path, no more
    entries than nodes; and when no two nodes have the same path, one
    entry per node, the node itself. *)
Lemma FlattenSchema_entries (s : JSONSchemaProps) :
  let flat := FlattenSchema (Some s) in
  FlattenSchema None = ∅
  /\ dom flat = list_to_set (node_paths "^" s)
  /\ is_Some (flat !! "^")
  /\ (forall p nd, flat !! p = Some nd -> (p, nd) ∈ node_entries "^" s)
  /\ size flat <= count_nodes s
  /\ (NoDup (node_paths "^" s) ->
      size flat = count_nodes s
      /\ flat !! "^" = Some s
      /\ forall p nd, (p, nd) ∈ node_entries "^" s -> flat !! p = Some nd).
Proof.
  intros flat. subst flat. unfold FlattenSchema, node_paths.
  rewrite SchemaHas_entries. repeat split.
  - rewrite recorded_dom. set_solver.
  - apply elem_of_dom. rewrite recorded_dom. destruct s; simpl. set_solver.
  - intros p nd Hl. apply recorded_lookup_Some in Hl as [?|Hl]; [done|].
    by rewrite lookup_empty in Hl.
  - rewrite <- size_dom, recorded_dom, (count_nodes_entries s "^").
    rewrite <- (length_fmap fst). etrans; [|apply size_list_to_set_le].
    apply Nat.eq_le_incl. f_equal. set_solver.
  - rewrite <- size_dom, recorded_dom, (count_nodes_entries s "^").
    rewrite <- (length_fmap fst). rewrite <- (size_list_to_set (C := gset string)) by done.
    f_equal. set_solver.
  - apply recorded_lookup_nodup; [done|]. destruct s; simpl. by left.
  - intros p nd Hin. by apply recorded_lookup_nodup.
Qed.

(** The flattener's test: four nodes, four entries. *)
Lemma FlattenSchema_test_schema :
  FlattenSchema (Some test_schema)
  = {[ "^" := test_schema;
       "^.foo" := with_properties {[ "bar" := empty_props ]};
       "^.foo.bar" := empty_props;
       "^.baz" := empty_props ]}.
Proof. by vm_compute. Qed.

(** C9 at a schema with a dotted property name. The tree has four
    nodes: the root, [a], the [b] under [a], and [a.b]. The last two both
    have the path [^.a.b], and the flat schema has three entries. *)
Theorem FlattenSchema_dotted_name :
  count_nodes dotted_schema = 4
  /\ node_paths "^" dotted_schema = ["^"; "^.a"; "^.a.b"; "^.a.b"]
  /\ size (FlattenSchema (Some dotted_schema)) = 3
  /\ dom (FlattenSchema (Some dotted_schema)) = {[ "^"; "^.a"; "^.a.b" ]}.
Proof. repeat split; by vm_compute. Qed.

(** *** The theorems at sample inputs *)

Lemma EnumChangeValidation_judgement_samples :
  error_of (EnumChangeValidation enum_introduced) = Some ErrEnumsAdded
  /\ (exists removed, error_of (EnumChangeValidation enum_shrunk)
                      = Some (ErrEnumValuesRemoved removed) /\ "foo" ∈ removed)
  /\ error_of (EnumChangeValidation enum_grown) = None
  /\ handled_of (EnumChangeValidation enum_grown) = true.
Proof.
  split; [|split; [|split]].
  - apply (EnumChangeValidation_judgement enum_introduced); [reflexivity|discriminate].
  - destruct (EnumChangeValidation_judgement enum_shrunk) as (_ & Hremoved & _).
    destruct (Hremoved "foo") as (removed & Herr & Hin).
    + simpl. left.
    + simpl. intros Hin. apply list_elem_of_singleton in Hin. discriminate.
    + exists removed. split; [exact Herr|]. apply Hin. split.
      * simpl. left.
      * simpl. intros Hbar. apply list_elem_of_singleton in Hbar. discriminate.
  - apply (EnumChangeValidation_judgement enum_grown).
    + left. discriminate.
    + simpl. intros x Hx. apply list_elem_of_singleton in Hx. subst x. left.
  - apply (EnumChangeValidation_judgement enum_grown). reflexivity.
Defined.

Lemma RequiredFieldChangeValidation_judgement_samples :
  error_of (RequiredFieldChangeValidation required_introduced) = Some ErrRequiredAddedToNone
  /\ (exists e, error_of (RequiredFieldChangeValidation required_grown) = Some e)
  /\ (exists added, error_of (RequiredFieldChangeValidation required_grown)
                    = Some (ErrNewRequiredAdded added) /\ "b" ∈ added)
  /\ error_of (RequiredFieldChangeValidation required_shrunk) = None
  /\ handled_of (RequiredFieldChangeValidation required_shrunk) = true.
Proof.
  assert ("b" ∈ ["a"; "b"]) as Hb by (right; left).
  assert ("b" ∉ ["a"]) as Hnb by (intros Hin; apply list_elem_of_singleton in Hin; discriminate).
  split; [|split; [|split; [|split]]].
  - apply (RequiredFieldChangeValidation_judgement required_introduced);
      [reflexivity|discriminate].
  - destruct (RequiredFieldChangeValidation_judgement required_grown) as (_ & Hsome & _).
    apply (Hsome "b"); [exact Hb|exact Hnb].
  - destruct (RequiredFieldChangeValidation_judgement required_grown) as (_ & _ & Hadded & _).
    destruct (Hadded "b") as (added & Herr & Hin); [exact Hb|exact Hnb|discriminate|].
    exists added. split; [exact Herr|]. apply Hin. split; [exact Hb|exact Hnb].
  - apply (RequiredFieldChangeValidation_judgement required_shrunk).
    simpl. intros x Hx. apply list_elem_of_singleton in Hx. subst x. left.
  - apply (RequiredFieldChangeValidation_judgement required_shrunk). reflexivity.
Defined.

Lemma validations_clear_in_place_samples :
  handled_of (EnumChangeValidation required_grown) = false
  /\ run_diff (run_validations [EnumChangeValidation; RequiredFieldChangeValidation]
                 "v1" "^.a" required_grown)
     = run_diff (run_validations [RequiredFieldChangeValidation] "v1" "^.a"
                   (diff_after (EnumChangeValidation required_grown)))
  /\ handled_of (RequiredFieldChangeValidation enum_grown) = false
  /\ run_diff (run_validations [RequiredFieldChangeValidation; EnumChangeValidation]
                 "v1" "^.a" enum_grown)
     = run_diff (run_validations [EnumChangeValidation] "v1" "^.a"
                   (diff_after (RequiredFieldChangeValidation enum_grown))).
Proof.
  split; [reflexivity|]. split; [|split; [reflexivity|]].
  - destruct (validations_clear_in_place required_grown) as (_ & _ & _ & Hnext & _).
    apply Hnext. reflexivity.
  - destruct (validations_clear_in_place enum_grown) as (_ & _ & _ & _ & Hnext).
    apply Hnext. reflexivity.
Defined.

Lemma Validate_chain_samples :
  validate_field both_validations "v1" "^.a" required_grown
  = [ErrVersionField "v1" "^.a" (ErrNewRequiredAdded {["b"]})]
  /\ validate_field both_validations "v1" "^.a" id_changed = [ErrUnknownChange "v1" "^.a"].
Proof.
  split.
  - destruct (Validate_chain both_validations "v1" "^.a" required_grown) as [Hfirst _].
    destruct (Hfirst 1 (Some (ErrNewRequiredAdded {["b"]}))) as (_ & _ & Herrs & _).
    + reflexivity.
    + intros [|j] a Hj Ha; [|lia]. vm_compute in Ha. injection Ha as <-. reflexivity.
    + rewrite Herrs. reflexivity.
  - destruct (Validate_chain both_validations "v1" "^.a" id_changed) as [_ Hnone].
    destruct Hnone as (_ & _ & Herrs).
    + intros [|[|j]] a Ha; vm_compute in Ha; try discriminate; injection Ha as <-; reflexivity.
    + rewrite Herrs. reflexivity.
Defined.

Lemma CalculateFlatSchemaDiff_spec_samples :
  (exists f, snd (CalculateFlatSchemaDiff canonical_range flat_old_two flat_new_one)
             = Some (ErrFieldNotFound f) /\ flat_new_one !! f = None)
  /\ (exists diffs, CalculateFlatSchemaDiff canonical_range flat_new_one flat_new_one
                    = (diffs, None))
  /\ CalculateFlatSchemaDiff canonical_range {["^.a" := with_id "x"]} {["^.a" := with_id "y"]}
     = ({["^.a" := MkFieldDiff (with_id "x") (with_id "y")]}, None)
  /\ CalculateFlatSchemaDiff canonical_range {["^.a" := parent_bar]} {["^.a" := parent_baz]}
     = (∅, None).
Proof.
  split; [|split; [|split]].
  - destruct (CalculateFlatSchemaDiff_spec canonical_range flat_old_two flat_new_one
                canonical_range_ok) as (Hremoved & _).
    destruct Hremoved as (f & _ & Hnew & Herr).
    + exists "^.b". split; [by eexists|reflexivity].
    + exists f. split; [exact Herr|exact Hnew].
  - destruct (CalculateFlatSchemaDiff_spec canonical_range flat_new_one flat_new_one
                canonical_range_ok) as (_ & Hcommon & _).
    destruct Hcommon as (diffs & Hrun & _); [intros f Hf; exact Hf|].
    exists diffs. exact Hrun.
  - destruct (CalculateFlatSchemaDiff_spec canonical_range ∅ ∅ canonical_range_ok)
      as (_ & _ & _ & _ & Hchanged & _).
    apply (Hchanged (with_id "x") (with_id "y")). discriminate.
  - destruct (CalculateFlatSchemaDiff_spec canonical_range ∅ ∅ canonical_range_ok)
      as (_ & _ & _ & _ & _ & Hchildren).
    apply (Hchildren parent_bar parent_baz). reflexivity.
Defined.

End CRDUpgradeSafetyFacts.


(** ** Facts about the permissions package *)

Module PermissionsFacts.
Import Permissions Samples.

(** *** Configuration *)

(** [SetConfig] leaves its receiver as it found it. *)
Lemma SetConfig_receiver p cfg : fst (SetConfig p cfg) = p.
Proof. unfold SetConfig. by repeat case_match. Qed.


(** After any configuration of a new check, [Run] still builds the
    direct strategy. *)
Lemma select_after_SetConfig deps e cfg :
  select_permission_validator (config (fst (SetConfig (NewPreflight deps e) cfg)))
  = Some SelfSubjectAccessReviewStrategy.
Proof. by rewrite SetConfig_receiver. Qed.

(** C1 at a bag that names the cached strategy. [SetConfig] accepts the
    bag and returns nil, the configuration of the check is the one
    [NewPreflight] gave it, and the strategy [Run] builds from it is the
    direct one. *)
Theorem SetConfig_rules_review_not_kept :
  let p := NewPreflight working_deps true in
  SetConfig p rules_review_config = (p, None)
  /\ config (fst (SetConfig p rules_review_config))
     = MkPreflightConfig "SelfSubjectAccessReview"
  /\ select_permission_validator (config (fst (SetConfig p rules_review_config)))
     = Some SelfSubjectAccessReviewStrategy.
Proof. repeat split; by vm_compute. Qed.

(** *** The run *)

Section Run.

Context {World : Type}.
Variable validator : Resource -> string -> World -> World * option error.

Lemma check_all_app checks1 checks2 w :
  check_all validator (checks1 ++ checks2) w
  = let '(w1, errs1) := check_all validator checks1 w in
    let '(w2, errs2) := check_all validator checks2 w1 in
    (w2, errs1 ++ errs2).
Proof.
  revert w. induction checks1 as [|[res verb] rest IH]; intros w; simpl.
  - by destruct (check_all validator checks2 w).
  - destruct (validator res verb w) as [w1 err]. rewrite IH.
    destruct (check_all validator rest w1) as [w2 errs1].
    destruct (check_all validator checks2 w2) as [w3 errs2]. by rewrite app_assoc.
Qed.

Lemma append_err_option_list errorSet err :
  append_err errorSet err = errorSet ++ option_list err.
Proof. destruct err; simpl; [done|by rewrite app_nil_r]. Qed.

Lemma run_changes_check_all changes w errorSet :
  run_changes validator changes w errorSet
  = let '(w', errs) := check_all validator (planned_checks changes) w in
    (w', errorSet ++ errs).
Proof.
  revert w errorSet. induction changes as [|[op res] rest IH]; intros w errorSet; simpl.
  - by rewrite app_nil_r.
  - destruct op; simpl.
    + destruct (validator res "delete" w) as [w1 err]. rewrite IH.
      destruct (check_all validator (planned_checks rest) w1) as [w2 errs].
      by rewrite append_err_option_list, app_assoc.
    + destruct (validator res "create" w) as [w1 err1].
      destruct (validator res "update" w1) as [w2 err2]. rewrite IH.
      destruct (check_all validator (planned_checks rest) w2) as [w3 errs].
      by rewrite !append_err_option_list, !app_assoc.
    + apply IH.
Qed.

End Run.

(** C6. With its two dependencies at hand, [Run] makes, change by
    change in the order of the graph, the [delete] check of a delete and
    the [create] and [update] checks of an upsert, keeps every failure,
    and returns their join, or nil when there is none. So when the
    [create] check of an upsert fails, the run returns an error that holds
    that failure, whatever the [update] check answers. *)
Theorem Run_checks_every_change {World : Type}
    (NewCompositeValidator :
       option PermissionValidator -> Resource -> string -> World -> World * option error)
    (p : Preflight) (changeGraph : list Change) (w : World) :
  CoreClient (depsFactory p) = None ->
  RESTMapper (depsFactory p) = None ->
  let validator := NewCompositeValidator (select_permission_validator (config p)) in
  let checked := check_all validator (planned_checks changeGraph) w in
  Run NewCompositeValidator p changeGraph w
  = (fst checked, match snd checked with
                  | [] => None
                  | failures => Some (ErrJoin failures)
                  end)
  /\ (forall op, required_verbs op = match op with
                                     | ActualChangeOpDelete => ["delete"]
                                     | ActualChangeOpUpsert => ["create"; "update"]
                                     | ActualChangeOpNoop => []
                                     end)
  /\ (forall before res after w1 w2 e,
        changeGraph = before ++ MkChange ActualChangeOpUpsert res :: after ->
        fst (check_all validator (planned_checks before) w) = w1 ->
        validator res "create" w1 = (w2, Some e) ->
        exists failures,
          snd (Run NewCompositeValidator p changeGraph w) = Some (ErrJoin failures)
          /\ e ∈ failures).
Proof.
  intros Hclient Hmapper validator checked.
  assert (Run NewCompositeValidator p changeGraph w
          = (fst checked, match snd checked with
                          | [] => None
                          | failures => Some (ErrJoin failures)
                          end)) as Hrun.
  { unfold Run. rewrite Hclient, Hmapper. fold validator.
    rewrite run_changes_check_all. fold checked.
    destruct checked as [w' [|e errs]]; done. }
  split; [done|]. split; [by intros []|].
  intros before res after w1 w2 e -> Hw1 Hcreate. rewrite Hrun. subst checked.
  unfold planned_checks. rewrite flat_map_app. fold (planned_checks before).
  rewrite check_all_app.
  destruct (check_all validator (planned_checks before) w) as [w1' errs1]. simpl in Hw1.
  subst w1'. simpl. rewrite Hcreate.
  destruct (validator res "update" w2) as [w3 err2].
  destruct (check_all validator _ w3) as [w4 errs3]. simpl.
  exists (errs1 ++ e :: option_list err2 ++ errs3). split.
  - by destruct errs1.
  - apply elem_of_app. right. by left.
Qed.

(** *** The direct strategy behind the basic validator *)

(** When the REST mapper knows the resource and the access review says
    no, the basic validator fails with an error that names the verb and
    the group, version and resource of the mapping. *)
Lemma BasicValidator_denied ssar_Create RESTMapping res verb group version resource status :
  RESTMapping (res_Group res) (res_Kind res) (res_Version res)
  = inr (group, version, resource) ->
  ssar_Create (MkResourceAttributes (res_Namespace res) verb group version resource
                 (res_Name res)) = inr (Some status) ->
  EvaluationError status = "" -> Allowed status = false ->
  BasicValidator_Validate RESTMapping
    (fun attrs (st : unit) =>
       (st, SelfSubjectAccessReviewValidator_ValidatePermissions ssar_Create attrs))
    res verb tt
  = (tt, Some (ErrNotPermitted verb group version resource)).
Proof.
  intros Hmap Hreview Heval Hdeny.
  unfold BasicValidator_Validate, SelfSubjectAccessReviewValidator_ValidatePermissions.
  by rewrite Hmap, Hreview, Heval, Hdeny.
Qed.

(** *** The cached strategy *)

Section Cached.

Variable ssrr_Create : list string -> string -> result SubjectRulesReviewStatus.
Variable RulesAllow : AttributesRecord -> list PolicyRule -> bool.

(** A check whose namespace is cached asks nothing and changes nothing. *)
Lemma validate_cached rv resourceAttrib rules :
  cache rv !! normalize_namespace (attr_Namespace resourceAttrib) = Some rules ->
  SelfSubjectRulesReviewValidator_ValidatePermissions ssrr_Create RulesAllow rv resourceAttrib
  = (rv, verdict RulesAllow resourceAttrib rules).
Proof.
  intros Hhit. unfold SelfSubjectRulesReviewValidator_ValidatePermissions, populate_cache.
  rewrite Hhit. simpl. rewrite Hhit. simpl. unfold verdict. by destruct (RulesAllow _ _).
Qed.

(** A check whose namespace is not cached asks once; a complete answer
    is stored and judged. *)
Lemma validate_populates rv resourceAttrib status :
  let ns := normalize_namespace (attr_Namespace resourceAttrib) in
  cache rv !! ns = None ->
  ssrr_Create (ssrrClient rv) ns = inr status ->
  Incomplete status = false ->
  SelfSubjectRulesReviewValidator_ValidatePermissions ssrr_Create RulesAllow rv resourceAttrib
  = (MkSelfSubjectRulesReviewValidator (ssrrClient rv ++ [ns])
       (<[ns := rules_of_status status]> (cache rv)),
     verdict RulesAllow resourceAttrib (rules_of_status status)).
Proof.
  intros ns Hmiss Hanswer Hcomplete.
  unfold SelfSubjectRulesReviewValidator_ValidatePermissions, populate_cache.
  fold ns. rewrite Hmiss, Hanswer, Hcomplete. simpl. rewrite lookup_insert_eq. simpl.
  unfold verdict. by destruct (RulesAllow _ _).
Qed.

(** A check whose query fails or comes back incomplete fails, and the
    cache stays as it was. *)
Lemma validate_query_fails rv resourceAttrib :
  let ns := normalize_namespace (attr_Namespace resourceAttrib) in
  cache rv !! ns = None ->
  answered_complete ssrr_Create (ssrrClient rv) ns = false ->
  exists err,
    SelfSubjectRulesReviewValidator_ValidatePermissions ssrr_Create RulesAllow rv resourceAttrib
    = (MkSelfSubjectRulesReviewValidator (ssrrClient rv ++ [ns]) (cache rv), Some err)
    /\ (err = ErrRulesReviewIncomplete \/ exists cause, err = ErrCreatingRulesReview cause).
Proof.
  intros ns Hmiss Hfail.
  unfold SelfSubjectRulesReviewValidator_ValidatePermissions, populate_cache.
  fold ns. rewrite Hmiss. unfold answered_complete in Hfail.
  destruct (ssrr_Create (ssrrClient rv) ns) as [cause|status]; simpl; [eauto|].
  destruct (Incomplete status); [eauto|done].
Qed.

Lemma validate_keeps_invariant rv resourceAttrib :
  answers_cached ssrr_Create rv /\ asked_again_after_failure ssrr_Create rv ->
  let rv' := fst (SelfSubjectRulesReviewValidator_ValidatePermissions
                    ssrr_Create RulesAllow rv resourceAttrib) in
  answers_cached ssrr_Create rv' /\ asked_again_after_failure ssrr_Create rv'.
Proof.
  intros [Hcached Hagain].
  set (ns := normalize_namespace (attr_Namespace resourceAttrib)).
  destruct (cache rv !! ns) as [rules|] eqn:Hlook.
  { by rewrite (validate_cached _ _ _ Hlook). }
  assert (exists c, fst (SelfSubjectRulesReviewValidator_ValidatePermissions
                           ssrr_Create RulesAllow rv resourceAttrib)
                    = MkSelfSubjectRulesReviewValidator (ssrrClient rv ++ [ns]) c
                    /\ (forall k, is_Some (cache rv !! k) -> is_Some (c !! k))
                    /\ (answered_complete ssrr_Create (ssrrClient rv) ns = true ->
                        is_Some (c !! ns)))
    as (c & -> & Hgrow & Hnew).
  { destruct (answered_complete ssrr_Create (ssrrClient rv) ns) eqn:Hans.
    - unfold answered_complete in Hans.
      destruct (ssrr_Create (ssrrClient rv) ns) as [|status] eqn:Hcreate; [done|].
      apply negb_true_iff in Hans.
      rewrite (validate_populates _ _ _ Hlook Hcreate Hans). fold ns.
      eexists. split; [done|]. split.
      + intros k Hk. rewrite lookup_insert. by case_decide.
      + intros _. by rewrite lookup_insert_eq.
    - destruct (validate_query_fails _ _ Hlook Hans) as (err & -> & _). fold ns.
      eexists. split; [done|]. split; [done|]. done. }
  simpl. split.
  - intros i k Hi Hans. simpl in *.
    destruct (decide (i < length (ssrrClient rv))) as [Hlt|Hge].
    + rewrite lookup_app_l in Hi by done. rewrite take_app_le in Hans by lia.
      apply Hgrow. by apply (Hcached i).
    + assert (i = length (ssrrClient rv)) as ->.
      { apply lookup_lt_Some in Hi. rewrite length_app in Hi. simpl in Hi. lia. }
      rewrite lookup_app_r, Nat.sub_diag in Hi by done. injection Hi as <-.
      rewrite take_app_length in Hans. by apply Hnew.
  - intros i j k Hij Hi Hj. simpl in *.
    assert (i < length (ssrrClient rv)) as Hlt.
    { apply lookup_lt_Some in Hj. rewrite length_app in Hj. simpl in Hj. lia. }
    rewrite lookup_app_l in Hi by done. rewrite take_app_le by lia.
    destruct (decide (j < length (ssrrClient rv))) as [Hjlt|Hjge].
    + rewrite lookup_app_l in Hj by done. by apply (Hagain i j).
    + rewrite lookup_app_r in Hj by lia. apply list_lookup_singleton_Some in Hj as [_ <-].
      destruct (answered_complete ssrr_Create (take i (ssrrClient rv)) ns) eqn:Hans; [|done].
      destruct (Hcached i ns Hi Hans) as [rules Hrules]. congruence.
Qed.

Lemma validate_all_keeps_invariant rv checks :
  answers_cached ssrr_Create rv /\ asked_again_after_failure ssrr_Create rv ->
  answers_cached ssrr_Create (fst (validate_all ssrr_Create RulesAllow rv checks))
  /\ asked_again_after_failure ssrr_Create
       (fst (validate_all ssrr_Create RulesAllow rv checks)).
Proof.
  revert rv. induction checks as [|resourceAttrib rest IH]; intros rv Hinv; simpl; [done|].
  pose proof (validate_keeps_invariant rv resourceAttrib Hinv) as Hstep.
  destruct (SelfSubjectRulesReviewValidator_ValidatePermissions
              ssrr_Create RulesAllow rv resourceAttrib) as [rv1 err].
  simpl in Hstep.
  specialize (IH rv1 Hstep).
  by destruct (validate_all ssrr_Create RulesAllow rv1 rest) as [rv2 errs].
Qed.

Lemma new_validator_invariant :
  answers_cached ssrr_Create NewSelfSubjectRulesReviewValidator
  /\ asked_again_after_failure ssrr_Create NewSelfSubjectRulesReviewValidator.
Proof. split; intros i; intros; simpl in *; by rewrite lookup_nil in *. Qed.

End Cached.

(** C7, as the code has it. The cached strategy looks a namespace up
    under its normalized name, the empty namespace as [default]. A check
    whose namespace is cached makes no bulk query, leaves the validator as
    it is and judges by the cached rules. A check whose namespace is not
    cached makes one bulk query: a complete answer is stored, resource
    rules then non-resource rules, and judged; an error or an incomplete
    answer makes the check fail and leaves the cache as it was. So over
    the checks of one run a namespace is asked about again only when its
    earlier query was not answered completely, and when every query is
    answered completely no namespace is asked about twice. *)
Theorem cached_strategy_queries
    (ssrr_Create : list string -> string -> result SubjectRulesReviewStatus)
    (RulesAllow : AttributesRecord -> list PolicyRule -> bool)
    (rv : SelfSubjectRulesReviewValidator) (resourceAttrib : ResourceAttributes)
    (checks : list ResourceAttributes) :
  let validate := SelfSubjectRulesReviewValidator_ValidatePermissions ssrr_Create RulesAllow in
  let ns := normalize_namespace (attr_Namespace resourceAttrib) in
  let asked := ssrrClient (fst (validate_all ssrr_Create RulesAllow
                                  NewSelfSubjectRulesReviewValidator checks)) in
  (normalize_namespace "" = "default"
   /\ (attr_Namespace resourceAttrib <> "" -> ns = attr_Namespace resourceAttrib))
  /\ (forall rules, cache rv !! ns = Some rules ->
        validate rv resourceAttrib = (rv, verdict RulesAllow resourceAttrib rules))
  /\ (forall status,
        cache rv !! ns = None -> ssrr_Create (ssrrClient rv) ns = inr status ->
        Incomplete status = false ->
        validate rv resourceAttrib
        = (MkSelfSubjectRulesReviewValidator (ssrrClient rv ++ [ns])
             (<[ns := rules_of_status status]> (cache rv)),
           verdict RulesAllow resourceAttrib (rules_of_status status)))
  /\ (cache rv !! ns = None -> answered_complete ssrr_Create (ssrrClient rv) ns = false ->
        exists err,
          validate rv resourceAttrib
          = (MkSelfSubjectRulesReviewValidator (ssrrClient rv ++ [ns]) (cache rv), Some err))
  /\ (forall i j k, i < j -> asked !! i = Some k -> asked !! j = Some k ->
        answered_complete ssrr_Create (take i asked) k = false)
  /\ ((forall history k, answered_complete ssrr_Create history k = true) -> NoDup asked).
Proof.
  intros validate ns asked. subst validate.
  destruct (validate_all_keeps_invariant ssrr_Create RulesAllow _ checks
              (new_validator_invariant ssrr_Create)) as [_ Hagain].
  fold asked in Hagain.
  split; [|split; [|split; [|split; [|split]]]].
  - split; [done|]. intros Hne. subst ns. unfold normalize_namespace.
    by rewrite bool_decide_eq_false_2.
  - intros rules. apply validate_cached.
  - intros status. apply validate_populates.
  - intros Hmiss Hfail.
    destruct (validate_query_fails ssrr_Create RulesAllow rv resourceAttrib Hmiss Hfail)
      as (err & Hrun & _). by exists err.
  - exact Hagain.
  - intros Hall. apply NoDup_alt. intros i j k Hi Hj.
    destruct (decide (i = j)) as [|Hne]; [done|].
    destruct (decide (i < j)).
    + pose proof (Hagain i j k ltac:(lia) Hi Hj) as Hfalse. rewrite Hall in Hfalse. done.
    + pose proof (Hagain j i k ltac:(lia) Hj Hi) as Hfalse. rewrite Hall in Hfalse. done.
Qed.

(** Two checks in one namespace against a cluster whose bulk query is
    never complete: both fail, the namespace is asked about twice and
    nothing is cached. *)
Lemma cached_strategy_asks_twice :
  let run := validate_all always_incomplete verb_listed NewSelfSubjectRulesReviewValidator
               [get_configmaps "dev"; get_configmaps "dev"] in
  ssrrClient (fst run) = ["dev"; "dev"]
  /\ ~ NoDup (ssrrClient (fst run))
  /\ cache (fst run) = ∅
  /\ snd run = [Some ErrRulesReviewIncomplete; Some ErrRulesReviewIncomplete].
Proof.
  assert (ssrrClient (fst (validate_all always_incomplete verb_listed
            NewSelfSubjectRulesReviewValidator [get_configmaps "dev"; get_configmaps "dev"]))
          = ["dev"; "dev"]) as Hasked by by vm_compute.
  cbv zeta. rewrite Hasked. repeat split; try by vm_compute.
  intros Hnd. apply NoDup_cons in Hnd as [Hin _]. apply Hin. by left.
Qed.

(** *** Rules of a binding *)

(** C8, as the code has it. [RulesForBinding] fails on a resource that
    is neither a [RoleBinding] nor a [ClusterRoleBinding] and fails when
    the typed conversion fails. For a [RoleBinding] it fetches the cluster
    role or the namespaced role its reference names and returns the rules,
    fails when the fetch fails, and fails on any other reference kind.
    For a [ClusterRoleBinding] it fetches the cluster role of the
    referenced name and returns its rules, or fails when the fetch fails;
    the kind of the reference is not looked at. *)
Theorem RulesForBinding_resolves
    (AsTypedRoleBinding : Resource -> result RoleBinding)
    (AsTypedClusterRoleBinding : Resource -> result ClusterRoleBinding)
    (ClusterRoles_Get : string -> result (list PolicyRule))
    (Roles_Get : string -> string -> result (list PolicyRule))
    (res : Resource) :
  let rules := RulesForBinding AsTypedRoleBinding AsTypedClusterRoleBinding
                 ClusterRoles_Get Roles_Get res in
  (res_Kind res <> "RoleBinding" -> res_Kind res <> "ClusterRoleBinding" ->
     rules = inl (ErrUnknownBindingKind (res_Kind res)))
  /\ (res_Kind res = "RoleBinding" ->
      (forall err, AsTypedRoleBinding res = inl err ->
         rules = inl (ErrConvertingRoleBinding err))
      /\ (forall rb, AsTypedRoleBinding res = inr rb ->
            let ref := rb_RoleRef rb in
            (ref_Kind ref = "ClusterRole" ->
               rules = match ClusterRoles_Get (ref_Name ref) with
                       | inl err => inl (ErrFetchingClusterRoleForRoleBinding
                                           (ref_Name ref) (rb_Name rb) err)
                       | inr roleRules => inr roleRules
                       end)
            /\ (ref_Kind ref = "Role" ->
                  rules = match Roles_Get (rb_Namespace rb) (ref_Name ref) with
                          | inl err => inl (ErrFetchingRoleForRoleBinding
                                              (ref_Name ref) (rb_Name rb) err)
                          | inr roleRules => inr roleRules
                          end)
            /\ (ref_Kind ref <> "ClusterRole" -> ref_Kind ref <> "Role" ->
                  rules = inl (ErrUnknownRoleReferenceKind (ref_Kind ref)))))
  /\ (res_Kind res = "ClusterRoleBinding" ->
      (forall err, AsTypedClusterRoleBinding res = inl err ->
         rules = inl (ErrConvertingClusterRoleBinding err))
      /\ (forall crb, AsTypedClusterRoleBinding res = inr crb ->
            let ref := crb_RoleRef crb in
            rules = match ClusterRoles_Get (ref_Name ref) with
                    | inl err => inl (ErrFetchingClusterRoleForClusterRoleBinding
                                        (ref_Name ref) (crb_Name crb) err)
                    | inr roleRules => inr roleRules
                    end)).
Proof.
  intros rules. subst rules. unfold RulesForBinding. split; [|split].
  - intros Hrb Hcrb. by rewrite !bool_decide_eq_false_2.
  - intros Hkind. rewrite bool_decide_eq_true_2 by done. split.
    + by intros err ->.
    + intros rb ->. unfold RulesForRoleBinding. cbv zeta. repeat split.
      * intros Href. by rewrite bool_decide_eq_true_2.
      * intros Href. rewrite bool_decide_eq_false_2 by (rewrite Href; done).
        by rewrite bool_decide_eq_true_2.
      * intros Hcr Hr. by rewrite !bool_decide_eq_false_2.
  - intros Hkind. rewrite bool_decide_eq_false_2 by (rewrite Hkind; done).
    rewrite bool_decide_eq_true_2 by done. split.
    + by intros err ->.
    + by intros crb ->.
Qed.

(** A cluster role binding whose reference kind is [Bogus]: the rules
    of the cluster role of the referenced name come back, no failure. *)
Lemma RulesForBinding_odd_reference_kind :
  res_Kind odd_binding_resource = "ClusterRoleBinding"
  /\ convert_cluster_role_binding odd_binding_resource = inr odd_binding
  /\ ref_Kind (crb_RoleRef odd_binding) = "Bogus"
  /\ RulesForBinding convert_role_binding convert_cluster_role_binding
       get_cluster_role get_role odd_binding_resource
     = inr admin_rules.
Proof. repeat split; by vm_compute. Qed.

(** *** The theorems at sample inputs *)

Lemma Run_checks_every_change_sample :
  snd (Run all_but_create (NewPreflight working_deps true)
         [MkChange ActualChangeOpUpsert a_deployment] tt)
  = Some (ErrJoin [ErrNotPermitted "create" "apps" "v1" "deployments"]).
Proof.
  destruct (Run_checks_every_change all_but_create (NewPreflight working_deps true)
              [MkChange ActualChangeOpUpsert a_deployment] tt eq_refl eq_refl)
    as (Hrun & _ & Hcreate).
  destruct (Hcreate [] a_deployment [] tt tt
              (ErrNotPermitted "create" "apps" "v1" "deployments") eq_refl eq_refl eq_refl)
    as (failures & Hfail & Hin).
  rewrite Hrun. reflexivity.
Defined.

Lemma cached_strategy_queries_sample :
  SelfSubjectRulesReviewValidator_ValidatePermissions grant_everything verb_listed
    NewSelfSubjectRulesReviewValidator (get_configmaps "")
  = (MkSelfSubjectRulesReviewValidator ["default"]
       {["default" := [MkPolicyRule ["*"] ["*"] ["*"] [] []]]}, None)
  /\ SelfSubjectRulesReviewValidator_ValidatePermissions grant_everything verb_listed
       (MkSelfSubjectRulesReviewValidator ["default"]
          {["default" := [MkPolicyRule ["*"] ["*"] ["*"] [] []]]}) (get_configmaps "")
     = (MkSelfSubjectRulesReviewValidator ["default"]
          {["default" := [MkPolicyRule ["*"] ["*"] ["*"] [] []]]}, None)
  /\ (exists err,
        SelfSubjectRulesReviewValidator_ValidatePermissions always_incomplete verb_listed
          NewSelfSubjectRulesReviewValidator (get_configmaps "dev")
        = (MkSelfSubjectRulesReviewValidator ["dev"] ∅, Some err))
  /\ NoDup (ssrrClient (fst (validate_all grant_everything verb_listed
                               NewSelfSubjectRulesReviewValidator
                               [get_configmaps "dev"; get_configmaps "dev";
                                get_configmaps "prod"]))).
Proof.
  split; [|split; [|split]].
  - destruct (cached_strategy_queries grant_everything verb_listed
                NewSelfSubjectRulesReviewValidator (get_configmaps "") [])
      as (_ & _ & Hmiss & _).
    rewrite (Hmiss (MkSubjectRulesReviewStatus [MkResourceRule ["*"] ["*"] ["*"] []] [] false));
      reflexivity.
  - destruct (cached_strategy_queries grant_everything verb_listed
                (MkSelfSubjectRulesReviewValidator ["default"]
                   {["default" := [MkPolicyRule ["*"] ["*"] ["*"] [] []]]})
                (get_configmaps "") [])
      as (_ & Hhit & _).
    rewrite (Hhit [MkPolicyRule ["*"] ["*"] ["*"] [] []]); reflexivity.
  - destruct (cached_strategy_queries always_incomplete verb_listed
                NewSelfSubjectRulesReviewValidator (get_configmaps "dev") [])
      as (_ & _ & _ & Hfail & _).
    destruct Hfail as (err & Hrun); [reflexivity|reflexivity|].
    exists err. exact Hrun.
  - destruct (cached_strategy_queries grant_everything verb_listed
                NewSelfSubjectRulesReviewValidator (get_configmaps "dev")
                [get_configmaps "dev"; get_configmaps "dev"; get_configmaps "prod"])
      as (_ & _ & _ & _ & _ & Hnodup).
    apply Hnodup. intros history k. reflexivity.
Defined.

Lemma RulesForBinding_resolves_sample :
  RulesForBinding convert_role_binding convert_cluster_role_binding get_cluster_role get_role
    (MkResource "rbac.authorization.k8s.io" "v1" "RoleBinding" "dev" "readers")
  = inr [MkPolicyRule ["get"] [""] ["configmaps"] [] []]
  /\ RulesForBinding convert_role_binding convert_cluster_role_binding get_cluster_role get_role
       a_deployment
     = inl (ErrUnknownBindingKind "Deployment")
  /\ RulesForBinding convert_role_binding convert_cluster_role_binding get_cluster_role get_role
       odd_binding_resource
     = inr admin_rules.
Proof.
  split; [|split].
  - destruct (RulesForBinding_resolves convert_role_binding convert_cluster_role_binding
                get_cluster_role get_role
                (MkResource "rbac.authorization.k8s.io" "v1" "RoleBinding" "dev" "readers"))
      as (_ & Hrb & _).
    destruct (Hrb eq_refl) as (_ & Hconv).
    destruct (Hconv (MkRoleBinding "dev" "readers" (MkRoleRef "Role" "reader")) eq_refl)
      as (_ & Hrole & _).
    rewrite (Hrole eq_refl). reflexivity.
  - destruct (RulesForBinding_resolves convert_role_binding convert_cluster_role_binding
                get_cluster_role get_role a_deployment) as (Hother & _).
    apply Hother; discriminate.
  - destruct (RulesForBinding_resolves convert_role_binding convert_cluster_role_binding
                get_cluster_role get_role odd_binding_resource) as (_ & _ & Hcrb).
    destruct (Hcrb eq_refl) as (_ & Hconv).
    rewrite (Hconv odd_binding eq_refl). reflexivity.
Defined.

End PermissionsFacts.


(** ** Further properties of the CRD upgrade safety package *)

Module CRDUpgradeSafetyProperties.
Import CRDUpgradeSafety Samples CRDUpgradeSafetyFacts.

#[local] Arguments deep_equal : simpl never.

(** *** The differ *)

Lemma diff_loop_entries entries n acc f d :
  fst (diff_loop entries n acc) !! f = Some d ->
  acc !! f = Some d
  \/ exists s s', (f, s) ∈ entries /\ n !! f = Some s'
                  /\ own_attributes s <> own_attributes s'
                  /\ d = MkFieldDiff (own_attributes s) (own_attributes s').
Proof.
  revert acc. induction entries as [|[f0 s0] rest IH]; intros acc Hd; simpl in Hd; [by left|].
  destruct (n !! f0) as [s0'|] eqn:Hf0; [|by left].
  destruct (deep_equal (own_attributes s0) (own_attributes s0')) eqn:Heq; simpl in Hd.
  - apply IH in Hd as [?|(s & s' & Hin & Hrest)]; [by left|].
    right. exists s, s'. split; [by right|done].
  - apply deep_equal_false in Heq.
    apply IH in Hd as [Hins|(s & s' & Hin & Hrest)].
    + rewrite lookup_insert in Hins. case_decide as Hf; [|by left].
      subst f0. injection Hins as <-. right. exists s0, s0'. split; [by left|done].
    + right. exists s, s'. split; [by right|done].
Qed.

(** Whatever the differ hands back, with or without an error, every
    entry of the diff sits at a path both schemas have, holds the two
    nodes of that path without their child nodes, and these two nodes
    are unequal. *)
Theorem diff_entries_sound range (o n : FlatSchema) f d :
  range_ok range ->
  fst (CalculateFlatSchemaDiff range o n) !! f = Some d ->
  exists s s', o !! f = Some s /\ n !! f = Some s'
               /\ d = MkFieldDiff (own_attributes s) (own_attributes s')
               /\ Old d <> New d
               /\ Properties (Old d) = None /\ Properties (New d) = None.
Proof.
  intros Hok Hd. destruct (range_entries range o Hok) as [_ Hin].
  apply diff_loop_entries in Hd as [Hempty|(s & s' & Hs & Hn & Hne & ->)].
  { by rewrite lookup_empty in Hempty. }
  exists s, s'. split; [by apply Hin|]. by repeat split.
Qed.

Lemma diff_all_present range (o n : FlatSchema) :
  range_ok range ->
  (forall f, is_Some (o !! f) -> is_Some (n !! f)) ->
  exists diffs, CalculateFlatSchemaDiff range o n = (diffs, None)
    /\ forall f d, diffs !! f = Some d <->
         exists s s', o !! f = Some s /\ n !! f = Some s'
                      /\ own_attributes s <> own_attributes s'
                      /\ d = MkFieldDiff (own_attributes s) (own_attributes s').
Proof.
  intros Hok Hall. destruct (range_entries range o Hok) as [Hnd Hin].
  destruct (diff_loop_common (range _ o) n ∅ Hnd) as (diffs & Hrun & Hd).
  { intros f s Hfs. apply Hall. exists s. by apply Hin. }
  { intros f _. apply lookup_empty. }
  exists diffs. split; [done|]. intros f d. rewrite Hd. split.
  - intros [(s & s' & Hs & Hrest)|Hempty]; [|by rewrite lookup_empty in Hempty].
    exists s, s'. split; [by apply Hin|done].
  - intros (s & s' & Hs & Hrest). left. exists s, s'. split; [by apply Hin|done].
Qed.

Lemma diff_fails_iff range (o n : FlatSchema) :
  range_ok range ->
  is_Some (snd (CalculateFlatSchemaDiff range o n))
  <-> exists f, is_Some (o !! f) /\ n !! f = None.
Proof.
  intros Hok. destruct (range_entries range o Hok) as [_ Hin]. split.
  - intros Herr.
    destruct (decide (map_Forall (fun f _ => is_Some (n !! f)) o)) as [Hall|Hno].
    + destruct (diff_all_present range o n Hok) as (diffs & Hrun & _).
      * intros f [s Hs]. by apply (Hall f s).
      * rewrite Hrun in Herr. by destruct Herr.
    + apply map_not_Forall in Hno; [|apply _].
      destruct Hno as (f & s & Hs & Hn). exists f. split; [by exists s|].
      by apply eq_None_not_Some.
  - intros (f & [s Hs] & Hn).
    destruct (diff_loop_removed (range _ o) n ∅) as (f1 & s1 & _ & _ & He).
    { exists f, s. split; [by apply Hin|done]. }
    unfold CalculateFlatSchemaDiff. by rewrite He.
Qed.

Lemma diff_unchanged range (o n : FlatSchema) :
  range_ok range ->
  (forall f s, o !! f = Some s ->
     exists s', n !! f = Some s' /\ own_attributes s = own_attributes s') ->
  CalculateFlatSchemaDiff range o n = (∅, None).
Proof.
  intros Hok Hall. destruct (diff_all_present range o n Hok) as (diffs & Hrun & Hd).
  { intros f [s Hs]. destruct (Hall f s Hs) as (s' & Hn & _). by exists s'. }
  rewrite Hrun. f_equal. apply map_eq. intros f. rewrite lookup_empty.
  destruct (diffs !! f) as [d|] eqn:Hf; [|done].
  apply Hd in Hf as (s & s' & Hs & Hn & Hne & _).
  destruct (Hall f s Hs) as (s'' & Hn' & Heq). congruence.
Qed.

(** The differ hands back the empty diff and no error exactly when
    every path of the old schema is still there with the same attributes
    of its own; so a new schema that only adds paths, and a schema diffed
    against itself, give the empty diff. *)
Theorem diff_empty_iff range (o n : FlatSchema) :
  range_ok range ->
  (CalculateFlatSchemaDiff range o n = (∅, None)
   <-> forall f s, o !! f = Some s ->
         exists s', n !! f = Some s' /\ own_attributes s = own_attributes s')
  /\ (o ⊆ n -> CalculateFlatSchemaDiff range o n = (∅, None)).
Proof.
  intros Hok. split; [split; [|by apply diff_unchanged]|].
  - intros Hrun f s Hs.
    destruct (n !! f) as [s'|] eqn:Hn.
    + exists s'. split; [done|].
      destruct (deep_equal (own_attributes s) (own_attributes s')) eqn:Heq;
        [by apply deep_equal_spec|].
      apply deep_equal_false in Heq.
      destruct (diff_all_present range o n Hok) as (diffs & Hrun' & Hd).
      { intros f' Hf'. destruct (n !! f') eqn:Hn'; [done|].
        assert (is_Some (snd (CalculateFlatSchemaDiff range o n))) as Herr
          by (apply diff_fails_iff; [done|by exists f']).
        rewrite Hrun in Herr. by destruct Herr. }
      rewrite Hrun in Hrun'. injection Hrun' as <-.
      assert ((∅ : gmap string FieldDiff) !! f
              = Some (MkFieldDiff (own_attributes s) (own_attributes s'))) as Hf
        by (apply Hd; by exists s, s').
      by rewrite lookup_empty in Hf.
    + assert (is_Some (snd (CalculateFlatSchemaDiff range o n))) as Herr
        by (apply diff_fails_iff; [done|exists f; by split; [exists s|]]).
      rewrite Hrun in Herr. by destruct Herr.
  - intros Hsub. apply diff_unchanged; [done|]. intros f s Hs. exists s. split; [|done].
    by apply (lookup_weaken o n).
Qed.

(** The visiting order of the old schema decides neither whether the
    differ fails nor, when it does not fail, what diff it hands back. *)
Theorem diff_order_independent range1 range2 (o n : FlatSchema) :
  range_ok range1 -> range_ok range2 ->
  (is_Some (snd (CalculateFlatSchemaDiff range1 o n))
   <-> is_Some (snd (CalculateFlatSchemaDiff range2 o n)))
  /\ (snd (CalculateFlatSchemaDiff range1 o n) = None ->
      CalculateFlatSchemaDiff range1 o n = CalculateFlatSchemaDiff range2 o n).
Proof.
  intros Hok1 Hok2. split; [by rewrite !diff_fails_iff|].
  intros Hnone.
  assert (forall f, is_Some (o !! f) -> is_Some (n !! f)) as Hall.
  { intros f Hf. destruct (n !! f) eqn:Hn; [done|].
    assert (is_Some (snd (CalculateFlatSchemaDiff range1 o n))) as Herr
      by (apply diff_fails_iff; [done|by exists f]).
    rewrite Hnone in Herr. by destruct Herr. }
  destruct (diff_all_present range1 o n Hok1 Hall) as (d1 & -> & Hd1).
  destruct (diff_all_present range2 o n Hok2 Hall) as (d2 & -> & Hd2).
  f_equal. apply map_eq. intros f. apply option_eq. intros d. by rewrite Hd1, Hd2.
Qed.

(** *** The validator *)

Lemma flat_map_all_nil {A B} (f : A -> list B) (l : list A) :
  (forall x, x ∈ l -> f x = []) -> flat_map f l = [].
Proof.
  induction l as [|x l IH]; intros Hall; simpl; [done|].
  rewrite Hall by left. apply IH. intros y Hy. apply Hall. by right.
Qed.

Lemma elem_of_flat_map {A B} (f : A -> list B) (l : list A) x y :
  x ∈ l -> y ∈ f x -> y ∈ flat_map f l.
Proof.
  intros Hx Hy. apply list_elem_of_In, in_flat_map. exists x.
  split; by apply list_elem_of_In.
Qed.



(** Versions of the old CRD that the new CRD does not have are passed
    over: when the new CRD has none of the old version names, the update
    is judged safe. *)
Theorem Validate_versions_dropped range cv old new :
  (forall version, version ∈ Versions old -> GetVersionByName new (Name version) = None) ->
  Validate range cv old new = None.
Proof.
  intros Hnone. rewrite Validate_joins. rewrite flat_map_all_nil; [done|].
  intros version Hin. unfold validate_version. by rewrite (Hnone version Hin).
Qed.

(** A path that a version's old schema has and its new schema has not
    makes [Validate] fail with the diff error of that version, whatever
    the validations would answer; no validation is asked about that
    version. *)
Theorem Validate_field_removed range cv old new version newVersion f :
  range_ok range ->
  version ∈ Versions old ->
  GetVersionByName new (Name version) = Some newVersion ->
  is_Some (FlattenSchema (OpenAPIV3Schema version) !! f) ->
  FlattenSchema (OpenAPIV3Schema newVersion) !! f = None ->
  validate_version range cv new version = [ErrCalculatingDiff (Name version)]
  /\ exists errs, Validate range cv old new = Some (ErrJoin errs)
                  /\ ErrCalculatingDiff (Name version) ∈ errs.
Proof.
  intros Hok Hin Hnew Hold Hgone.
  assert (validate_version range cv new version = [ErrCalculatingDiff (Name version)])
    as Hversion.
  { unfold validate_version. rewrite Hnew.
    assert (is_Some (snd (CalculateFlatSchemaDiff range
              (FlattenSchema (OpenAPIV3Schema version))
              (FlattenSchema (OpenAPIV3Schema newVersion))))) as [e He]
      by (apply diff_fails_iff; [done|by exists f]).
    destruct (CalculateFlatSchemaDiff _ _ _) as [diffs err]. simpl in He. by subst err. }
  split; [done|]. rewrite Validate_joins.
  assert (ErrCalculatingDiff (Name version)
            ∈ flat_map (validate_version range cv new) (Versions old)) as Hmem.
  { eapply elem_of_flat_map; [exact Hin|]. rewrite Hversion. by left. }
  destruct (flat_map _ _) as [|e errs]; [by apply elem_of_nil in Hmem|].
  by exists (e :: errs).
Qed.

Lemma run_validations_clean validations version field diff :
  let r := run_validations validations version field diff in
  (run_handled r = true /\ run_errs r = [])
  <-> exists k, chain_answers validations diff !! k = Some (true, None)
                /\ forall j, j < k -> chain_answers validations diff !! j = Some (false, None).
Proof.
  revert diff. induction validations as [|v rest IH]; intros diff; simpl.
  { split; [by intros [? _]|]. by intros (k & Hk & _). }
  destruct (v diff) as [diff' [ok err]] eqn:Hv. destruct ok; simpl.
  - split.
    + intros [_ Herrs]. exists 0. destruct err; [done|]. split; [done|]. lia.
    + intros (k & Hk & Hbefore). destruct k as [|k].
      * simpl in Hk. injection Hk as ->. done.
      * specialize (Hbefore 0 ltac:(lia)). simpl in Hbefore. congruence.
  - specialize (IH diff'). simpl in IH. split.
    + intros [Hh Herrs]. apply app_eq_nil in Herrs as [Herr Hrest].
      destruct IH as [IH _]. destruct (IH (conj Hh Hrest)) as (k & Hk & Hbefore).
      exists (S k). split; [done|]. intros [|j] Hj; simpl.
      * destruct err; [done|done].
      * apply Hbefore. lia.
    + intros (k & Hk & Hbefore). destruct k as [|k]; [simpl in Hk; congruence|].
      pose proof (Hbefore 0 ltac:(lia)) as H0. simpl in H0. injection H0 as ->.
      destruct IH as [_ IH]. destruct IH as [Hh Hrest].
      { exists k. split; [done|]. intros j Hj. apply (Hbefore (S j)). lia. }
      by rewrite Hh, Hrest.
Qed.

(** A field passes, adding no error, exactly when some validation
    answers [handled] without an error and every validation called before
    it deferred without an error: an error of a validation that defers is
    kept as well. *)
Theorem field_passes_iff (cv : ChangeValidator) (version field : string) (diff : FieldDiff) :
  validate_field cv version field diff = []
  <-> exists k, chain_answers (Validations cv) diff !! k = Some (true, None)
                /\ forall j, j < k ->
                     chain_answers (Validations cv) diff !! j = Some (false, None).
Proof.
  rewrite <- run_validations_clean. unfold validate_field. cbv zeta.
  destruct (run_handled (run_validations (Validations cv) version field diff)) eqn:Hh; simpl.
  - split; [by intros ->|by intros [_ ->]].
  - split; [|intros [Hh' _]; congruence].
    intros Hnil. by apply app_eq_nil in Hnil as [_ ?].
Qed.

Lemma unknown_change_not_in_run validations version field diff :
  ErrUnknownChange version field ∉ run_errs (run_validations validations version field diff).
Proof.
  revert diff. induction validations as [|v rest IH]; intros diff; simpl.
  - apply not_elem_of_nil.
  - destruct (v diff) as [diff' [ok err]]. destruct ok; simpl.
    + destruct err; [|apply not_elem_of_nil].
      intros Hin. apply list_elem_of_singleton in Hin. discriminate.
    + intros Hin. apply elem_of_app in Hin as [Hin|Hin]; [|by apply (IH diff')].
      destruct err; [|by apply elem_of_nil in Hin].
      apply list_elem_of_singleton in Hin. discriminate.
Qed.

Lemma run_handled_two (v1 v2 : ChangeValidation) version field diff :
  run_handled (run_validations [v1; v2] version field diff)
  = handled_of (v1 diff) || handled_of (v2 (diff_after (v1 diff))).
Proof.
  simpl. unfold handled_of, diff_after.
  destruct (v1 diff) as [d1 [[] e1]]; simpl; [done|].
  destruct (v2 d1) as [d2 [[] e2]]; done.
Qed.

(** The two validations of the package together, in either order,
    handle a diff exactly when its two nodes agree on everything but
    their enum values and their required names; otherwise the field gets
    the unknown-change error. *)
Theorem enum_and_required_handle_iff (version field : string) (diff : FieldDiff) :
  let rest_of s := set_Enum None (set_Required None s) in
  let agree := rest_of (Old diff) = rest_of (New diff) in
  (run_handled (run_validations [EnumChangeValidation; RequiredFieldChangeValidation]
                  version field diff) = true <-> agree)
  /\ (run_handled (run_validations [RequiredFieldChangeValidation; EnumChangeValidation]
                     version field diff) = true <-> agree)
  /\ (ErrUnknownChange version field
        ∈ validate_field (MkChangeValidator
                            [EnumChangeValidation; RequiredFieldChangeValidation])
            version field diff
      <-> ~ agree).
Proof.
  intros rest_of agree. subst rest_of agree.
  assert (forall vs,
            vs = [EnumChangeValidation; RequiredFieldChangeValidation]
            \/ vs = [RequiredFieldChangeValidation; EnumChangeValidation] ->
            run_handled (run_validations vs version field diff) = true
            <-> set_Enum None (set_Required None (Old diff))
                = set_Enum None (set_Required None (New diff))) as Hboth.
  { intros vs [-> | ->]; rewrite run_handled_two, orb_true_iff;
      rewrite ?EnumChangeValidation_diff, ?RequiredFieldChangeValidation_diff;
      rewrite !EnumChangeValidation_handled, !RequiredFieldChangeValidation_handled;
      rewrite !deep_equal_spec;
      destruct (Old diff), (New diff); unfold set_Enum, set_Required; simpl;
      split; (intros [Heq|Heq] || intros Heq); try congruence;
      right; congruence. }
  split; [apply Hboth; by left|]. split; [apply Hboth; by right|].
  rewrite <- (Hboth _ (or_introl eq_refl)). unfold validate_field. cbn [Validations].
  pose proof (unknown_change_not_in_run
                [EnumChangeValidation; RequiredFieldChangeValidation] version field diff)
    as Hnot.
  destruct (run_handled
              (run_validations [EnumChangeValidation; RequiredFieldChangeValidation]
                 version field diff)) eqn:Hh; simpl.
  - split; [done|]. by intros [].
  - split; [done|]. intros _. apply elem_of_app. right. by left.
Qed.

(** Run again on the diff it has left, a validation of the package
    finds no error, leaves the diff as it is and answers as before; and
    the two validations leave the same diff in either order. *)
Theorem validations_run_again (diff : FieldDiff) :
  let e := diff_after (EnumChangeValidation diff) in
  let q := diff_after (RequiredFieldChangeValidation diff) in
  (error_of (EnumChangeValidation e) = None
   /\ diff_after (EnumChangeValidation e) = e
   /\ handled_of (EnumChangeValidation e) = handled_of (EnumChangeValidation diff))
  /\ (error_of (RequiredFieldChangeValidation q) = None
      /\ diff_after (RequiredFieldChangeValidation q) = q
      /\ handled_of (RequiredFieldChangeValidation q)
         = handled_of (RequiredFieldChangeValidation diff))
  /\ diff_after (RequiredFieldChangeValidation e) = diff_after (EnumChangeValidation q).
Proof.
  intros e q. subst e q.
  rewrite !EnumChangeValidation_error, !RequiredFieldChangeValidation_error,
    !EnumChangeValidation_handled, !RequiredFieldChangeValidation_handled,
    !EnumChangeValidation_diff, !RequiredFieldChangeValidation_diff.
  destruct diff as [[] []]. unfold set_Enum, set_Required. cbn -[deep_equal size collect_set].
  assert (size (collect_set [] ∖ collect_set []) = 0) as -> by by vm_compute.
  done.
Qed.

(** *** The properties at sample inputs *)

Lemma diff_entries_sound_sample :
  exists s s', flat_old_two !! "^.a" = Some s /\ flat_new_one !! "^.a" = Some s'
               /\ s <> s'.
Proof.
  destruct (diff_entries_sound canonical_range flat_old_two flat_new_one "^.a"
              (MkFieldDiff (with_id "x") (with_id "y")) canonical_range_ok)
    as (s & s' & Hs & Hs' & Hd & Hne & _).
  - by vm_compute.
  - exists s, s'. split; [exact Hs|]. split; [exact Hs'|].
    intros Heq. apply Hne. rewrite Hd. simpl. by rewrite Heq.
Defined.

Lemma diff_empty_iff_sample :
  CalculateFlatSchemaDiff canonical_range flat_new_one flat_old_two <> (∅, None)
  /\ CalculateFlatSchemaDiff canonical_range flat_new_one
       (<["^.c" := empty_props]> flat_new_one) = (∅, None).
Proof.
  split.
  - intros Hrun.
    destruct (diff_empty_iff canonical_range flat_new_one flat_old_two canonical_range_ok)
      as [[Hsame _] _].
    destruct (Hsame Hrun "^.a" (with_id "y")) as (s' & Hs' & Heq); [by vm_compute|].
    vm_compute in Hs'. injection Hs' as <-. discriminate.
  - apply (diff_empty_iff canonical_range flat_new_one _ canonical_range_ok).
    apply insert_subseteq. by vm_compute.
Defined.

Lemma diff_order_independent_sample :
  CalculateFlatSchemaDiff canonical_range flat_new_one flat_new_one
  = CalculateFlatSchemaDiff (fun A m => reverse (map_to_list m)) flat_new_one flat_new_one.
Proof.
  apply (diff_order_independent canonical_range (fun A m => reverse (map_to_list m))).
  - apply canonical_range_ok.
  - intros A m. unfold range_order. apply reverse_Permutation.
  - by vm_compute.
Defined.


Lemma Validate_versions_dropped_sample :
  Validate canonical_range both_validations crd_with_foo crd_without_versions = None.
Proof. apply Validate_versions_dropped. intros version Hin. reflexivity. Defined.

Lemma Validate_field_removed_sample :
  exists errs,
    Validate canonical_range (MkChangeValidator [claim_everything])
      crd_with_foo crd_without_foo = Some (ErrJoin errs)
    /\ ErrCalculatingDiff "v1alpha1" ∈ errs.
Proof.
  destruct (Validate_field_removed canonical_range (MkChangeValidator [claim_everything])
              crd_with_foo crd_without_foo (MkVersion "v1alpha1" (Some test_schema))
              (MkVersion "v1alpha1" (Some (with_properties {[ "baz" := empty_props ]})))
              "^.foo" canonical_range_ok) as [_ Hfails].
  - left.
  - reflexivity.
  - eexists. by vm_compute.
  - by vm_compute.
  - exact Hfails.
Defined.

Lemma field_passes_iff_sample :
  validate_field both_validations "v1" "^.a" required_shrunk = []
  /\ validate_field both_validations "v1" "^.a" required_grown <> [].
Proof.
  split.
  - apply field_passes_iff. exists 1. split; [by vm_compute|].
    intros [|j] Hj; [by vm_compute|lia].
  - intros Hnil. apply field_passes_iff in Hnil as (k & Hk & _).
    destruct k as [|[|k]]; vm_compute in Hk; discriminate.
Defined.

Lemma enum_and_required_handle_iff_sample :
  run_handled (run_validations [EnumChangeValidation; RequiredFieldChangeValidation]
                 "v1" "^.a" required_grown) = true
  /\ ErrUnknownChange "v1" "^.a" ∈ validate_field both_validations "v1" "^.a" id_changed.
Proof.
  split.
  - apply (enum_and_required_handle_iff "v1" "^.a" required_grown). reflexivity.
  - apply (enum_and_required_handle_iff "v1" "^.a" id_changed). discriminate.
Defined.

End CRDUpgradeSafetyProperties.

(** *** The flattener on trees without dotted names *)

Module CRDUpgradeSafetyPathProperties.
Import CRDUpgradeSafety CRDUpgradeSafetyPaths Samples CRDUpgradeSafetyFacts.

Lemma append_cons c s1 s2 : String c s1 +:+ s2 = String c (s1 +:+ s2).
Proof. reflexivity. Qed.

Lemma append_nil_r s : s +:+ "" = s.
Proof. induction s as [|c s IH]; [done|]. by rewrite append_cons, IH. Qed.

Lemma append_assoc s1 s2 s3 : (s1 +:+ s2) +:+ s3 = s1 +:+ (s2 +:+ s3).
Proof. induction s1 as [|c s1 IH]; [done|]. by rewrite !append_cons, IH. Qed.

Lemma length_append s1 s2 :
  String.length (s1 +:+ s2) = String.length s1 + String.length s2.
Proof. induction s1 as [|c s1 IH]; [done|]. rewrite append_cons. simpl. by rewrite IH. Qed.

Lemma no_dot_cons c name :
  no_dot (String c name) = true -> String c "" <> "." /\ no_dot name = true.
Proof.
  simpl. intros [Hc Hn]%andb_true_iff. split; [|done].
  apply negb_true_iff in Hc. by apply bool_decide_eq_false in Hc.
Qed.

(** A dot-free name followed by a tail is read back in one way only. *)
Lemma name_then_tail n1 n2 r1 r2 :
  no_dot n1 = true -> no_dot n2 = true -> path_tail r1 -> path_tail r2 ->
  n1 +:+ r1 = n2 +:+ r2 -> n1 = n2.
Proof.
  revert n2. induction n1 as [|c1 n1 IH]; intros [|c2 n2] Hn1 Hn2 Hr1 Hr2 Heq.
  - done.
  - apply no_dot_cons in Hn2 as [Hc2 _]. rewrite append_cons in Heq.
    change ("" +:+ r1) with r1 in Heq.
    destruct Hr1 as [->|[r' ->]]; [done|]. injection Heq as <- _. done.
  - apply no_dot_cons in Hn1 as [Hc1 _]. rewrite append_cons in Heq.
    change ("" +:+ r2) with r2 in Heq.
    destruct Hr2 as [->|[r' ->]]; [done|]. injection Heq as -> _. done.
  - apply no_dot_cons in Hn1 as [_ Hn1]. apply no_dot_cons in Hn2 as [_ Hn2].
    rewrite !append_cons in Heq. injection Heq as -> Heq. f_equal. by apply IH.
Qed.

Lemma children_tidy path (ps : gmap string JSONSchemaProps) :
  (forall name child, ps !! name = Some child -> no_dot name = true /\ tidy_paths child) ->
  let l := map_fold (fun name child acc => acc ++ node_entries (child_path path name) child)
                    [] ps in
  NoDup l.*1
  /\ forall p, p ∈ l.*1 ->
       exists name r, is_Some (ps !! name) /\ p = path +:+ "." +:+ name +:+ r /\ path_tail r.
Proof.
  induction ps as [|i x m Hi Hfirst IH] using map_first_key_ind; intros Hall l; subst l.
  { rewrite map_fold_empty. split; [constructor|]. intros p Hp. by apply elem_of_nil in Hp. }
  rewrite map_fold_insert_first_key by done.
  destruct (Hall i x) as [Hname Htidy]; [by rewrite lookup_insert_eq|].
  destruct IH as [IHnd IHshape].
  { intros name child Hlook. apply Hall. rewrite lookup_insert_ne; [done|].
    intros ->. congruence. }
  destruct (Htidy (child_path path i)) as [Hnd Hshape]. unfold node_paths in Hnd, Hshape.
  assert (forall p, p ∈ (node_entries (child_path path i) x).*1 ->
            exists r, p = path +:+ "." +:+ i +:+ r /\ path_tail r) as Hnew.
  { intros p Hp. destruct (Hshape p Hp) as (r & -> & Hr). exists r. split; [|done].
    unfold child_path. by rewrite !append_assoc. }
  rewrite fmap_app. split.
  - apply NoDup_app. split; [done|]. split; [|done].
    intros p Hold Hp. destruct (IHshape p Hold) as (name & r & [y Hy] & -> & Hr).
    destruct (Hnew _ Hp) as (r' & Heq & Hr').
    apply (inj (String.append path)), (inj (String.append ".")) in Heq.
    assert (no_dot name = true) as Hn.
    { apply (Hall name y). rewrite lookup_insert_ne; [done|]. intros ->. congruence. }
    apply name_then_tail in Heq; [|done..]. subst name. congruence.
  - intros p [Hp|Hp]%elem_of_app.
    + destruct (IHshape p Hp) as (name & r & [y Hy] & -> & Hr). exists name, r.
      split; [|done]. exists y. rewrite lookup_insert_ne; [done|]. intros ->. congruence.
    + destruct (Hnew p Hp) as (r & -> & Hr). exists i, r. split; [|done].
      by rewrite lookup_insert_eq.
Qed.

Lemma names_without_dot_tidy s : names_without_dot s = true -> tidy_paths s.
Proof.
  remember (count_nodes s) as k eqn:Hk. revert s Hk.
  induction k as [k IH] using lt_wf_ind. intros s -> Hnames path.
  destruct s as [i t d e r [ps|]]; unfold node_paths; simpl.
  2:{ split; [apply NoDup_singleton|]. intros p Hp. apply list_elem_of_singleton in Hp.
      subst p. exists "". split; [by rewrite append_nil_r|by left]. }
  set (s := MkJSONSchemaProps i t d e r (Some ps)).
  simpl in Hnames. rewrite map_fold_and_true in Hnames.
  destruct (children_tidy path ps) as [Hnd Hshape].
  { intros name child Hlook. specialize (Hnames name child Hlook).
    apply andb_true_iff in Hnames as [Hn Hc]. split; [done|].
    eapply (IH (count_nodes child)); [|reflexivity|done].
    by apply (count_nodes_child s ps name child). }
  split.
  - apply NoDup_cons. split; [|done]. intros Hin.
    destruct (Hshape path Hin) as (name & r' & _ & Heq & _).
    rewrite <- (append_nil_r path) in Heq at 1.
    apply (inj (String.append path)) in Heq. done.
  - intros p [->|Hp]%elem_of_cons.
    + exists "". split; [by rewrite append_nil_r|by left].
    + destruct (Hshape p Hp) as (name & r' & _ & -> & _).
      exists ("." +:+ name +:+ r'). split; [done|]. right. by eexists.
Qed.

Lemma map_fold_invariant {A B} (P : B -> Prop) (f : string -> A -> B -> B) b
    (m : gmap string A) :
  P b -> (forall i x b, m !! i = Some x -> P b -> P (f i x b)) -> P (map_fold f b m).
Proof.
  intros Hb Hstep. apply (map_fold_related (fun b _ => P b) f f b b m Hb).
  intros i x b1 _. apply Hstep.
Qed.

Lemma paths_not_shorter (c : JSONSchemaProps) path p :
  p ∈ node_paths path c -> String.length path <= String.length p.
Proof.
  remember (count_nodes c) as k eqn:Hk. revert c path p Hk.
  induction k as [k IH] using lt_wf_ind. intros c path p ->.
  destruct c as [i t d e r [ps|]]; unfold node_paths; simpl.
  2:{ intros Hp%list_elem_of_singleton. by subst. }
  intros [->|Hp]%elem_of_cons; [done|].
  refine (map_fold_invariant
            (fun (l : list (string * JSONSchemaProps)) =>
               forall p, p ∈ l.*1 -> String.length path <= String.length p)
            (fun name child acc => acc ++ node_entries (child_path path name) child)
            [] ps _ _ p Hp); clear p Hp.
  - intros p Hp. by apply elem_of_nil in Hp.
  - intros name child l Hlook Hl p. rewrite fmap_app.
    intros [Hp|Hp]%elem_of_app; [by apply Hl|].
    assert (String.length (child_path path name) <= String.length p) as Hle.
    { eapply (IH (count_nodes child)); [|reflexivity|exact Hp].
      by apply (count_nodes_child (MkJSONSchemaProps i t d e r (Some ps)) ps name child). }
    unfold child_path in Hle. rewrite !length_append in Hle. lia.
Qed.

Lemma children_paths_longer (ps : gmap string JSONSchemaProps) path p :
  p ∈ (map_fold (fun name child acc => acc ++ node_entries (child_path path name) child)
                [] ps).*1 ->
  String.length path < String.length p.
Proof.
  intros Hp.
  refine (map_fold_invariant
            (fun (l : list (string * JSONSchemaProps)) =>
               forall p, p ∈ l.*1 -> String.length path < String.length p)
            (fun name child acc => acc ++ node_entries (child_path path name) child)
            [] ps _ _ p Hp); clear p Hp.
  - intros p Hp. by apply elem_of_nil in Hp.
  - intros name child l Hlook Hl p. rewrite fmap_app.
    intros [Hp|Hp]%elem_of_app; [by apply Hl|].
    apply (paths_not_shorter child (child_path path name) p) in Hp.
    unfold child_path in Hp. rewrite !length_append in Hp. simpl in Hp. lia.
Qed.

(** On every tree the flat schema has an entry at every path a node
    has and at no other, each entry is a node that has this path, the
    entry at the root path is the root itself, and there are never more
    entries than nodes; a nil schema gives the empty map. *)
Theorem FlattenSchema_keeps_paths (s : JSONSchemaProps) :
  let flat := FlattenSchema (Some s) in
  FlattenSchema None = ∅
  /\ dom flat = list_to_set (node_paths "^" s)
  /\ (forall p nd, flat !! p = Some nd -> (p, nd) ∈ node_entries "^" s)
  /\ flat !! "^" = Some s
  /\ size flat <= count_nodes s.
Proof.
  intros flat.
  destruct (FlattenSchema_entries s) as (Hnil & Hdom & _ & Hsound & Hsize & _).
  fold flat in Hdom, Hsound, Hsize. repeat split; try done.
  subst flat. unfold FlattenSchema. rewrite SchemaHas_entries.
  assert (forall (l : list (string * JSONSchemaProps)),
            "^" ∉ l.*1 -> foldl record_node ∅ (("^", s) :: l) !! "^" = Some s) as Hroot.
  { intros l Hl. simpl. rewrite recorded_lookup_notin by done.
    unfold record_node. simpl. by rewrite lookup_insert_eq. }
  destruct s as [i t d e r [ps|]]; simpl node_entries.
  - apply Hroot. intros Hin. apply children_paths_longer in Hin. lia.
  - apply Hroot. apply not_elem_of_nil.
Qed.

(** When no property name of a tree has a dot in it, no two nodes have
    the same path, and the flat schema has exactly one entry per node,
    each node at its own path. *)
Theorem FlattenSchema_without_dots (s : JSONSchemaProps) :
  names_without_dot s = true ->
  let flat := FlattenSchema (Some s) in
  NoDup (node_paths "^" s)
  /\ size flat = count_nodes s
  /\ forall p nd, flat !! p = Some nd <-> (p, nd) ∈ node_entries "^" s.
Proof.
  intros Hnames flat.
  destruct (names_without_dot_tidy s Hnames "^") as [Hnd _].
  destruct (FlattenSchema_entries s) as (_ & _ & _ & Hsound & _ & Hexact).
  destruct (Hexact Hnd) as (Hsize & _ & Hcomplete).
  split; [done|]. split; [done|]. intros p nd. split; [apply Hsound|apply Hcomplete].
Qed.

(** *** The properties at sample inputs *)

Lemma FlattenSchema_keeps_paths_sample :
  (dotted_schema = dotted_schema -> FlattenSchema (Some dotted_schema) !! "^" = Some dotted_schema)
  /\ ("^.a.b", with_id "dotted") ∈ node_entries "^" dotted_schema.
Proof.
  destruct (FlattenSchema_keeps_paths dotted_schema) as (_ & _ & Hsound & Hroot & _).
  split; [intros _; exact Hroot|]. apply Hsound. by vm_compute.
Defined.

Lemma FlattenSchema_without_dots_sample :
  size (FlattenSchema (Some test_schema)) = count_nodes test_schema
  /\ ("^.foo.bar", empty_props) ∈ node_entries "^" test_schema.
Proof.
  destruct (FlattenSchema_without_dots test_schema) as (_ & Hsize & Hentries);
    [vm_compute; reflexivity|].
  split; [exact Hsize|]. apply Hentries. vm_compute. reflexivity.
Defined.

End CRDUpgradeSafetyPathProperties.

(** ** Further properties of the permissions package *)

Module PermissionsProperties.
Import Permissions PermissionsRoles Samples PermissionsFacts.

(** *** Configuration *)


(** *** The direct strategy *)

Lemma direct_strategy_nil_iff
    (ssar_Create : ResourceAttributes -> result (option SubjectAccessReviewStatus))
    (resourceAttrib : ResourceAttributes) :
  SelfSubjectAccessReviewValidator_ValidatePermissions ssar_Create resourceAttrib = None
  <-> exists status, ssar_Create resourceAttrib = inr (Some status)
                     /\ EvaluationError status = "" /\ Allowed status = true.
Proof.
  unfold SelfSubjectAccessReviewValidator_ValidatePermissions.
  destruct (ssar_Create resourceAttrib) as [err|[status|]].
  - split; [done|]. by intros (? & ? & _).
  - case_bool_decide as Heval; simpl.
    + destruct (Allowed status) eqn:Hallowed; simpl.
      * split; [|done]. intros _. by exists status.
      * split; [done|]. intros (? & [= <-] & _ & ?). congruence.
    + split; [done|]. intros (? & [= <-] & ? & _). done.
  - split; [done|]. by intros (? & ? & _).
Qed.

(** The direct strategy returns nil exactly when the access review comes
    back, carries no evaluation error and allows: an error of the call, a
    nil review and an evaluation error next to an allow all fail; and a
    denial names the verb, group, version and resource it was asked
    about. *)
Theorem direct_strategy_allows_iff
    (ssar_Create : ResourceAttributes -> result (option SubjectAccessReviewStatus))
    (resourceAttrib : ResourceAttributes) :
  (SelfSubjectAccessReviewValidator_ValidatePermissions ssar_Create resourceAttrib = None
   <-> exists status, ssar_Create resourceAttrib = inr (Some status)
                      /\ EvaluationError status = "" /\ Allowed status = true)
  /\ (forall status, ssar_Create resourceAttrib = inr (Some status) ->
        EvaluationError status = "" -> Allowed status = false ->
        SelfSubjectAccessReviewValidator_ValidatePermissions ssar_Create resourceAttrib
        = Some (ErrNotPermitted (attr_Verb resourceAttrib) (attr_Group resourceAttrib)
                  (attr_Version resourceAttrib) (attr_Resource resourceAttrib))).
Proof.
  split; [apply direct_strategy_nil_iff|].
  intros status Hreview Heval Hdeny.
  unfold SelfSubjectAccessReviewValidator_ValidatePermissions.
  by rewrite Hreview, Heval, Hdeny.
Qed.

(** With the direct strategy behind it, the basic validator never
    changes the state it is given, and it returns nil exactly when the
    REST mapper knows the resource and the access review for the mapped
    group, version and resource, the namespace and the name of the
    resource and the verb is a clean allow. *)
Theorem basic_validator_allows_iff
    (ssar_Create : ResourceAttributes -> result (option SubjectAccessReviewStatus))
    (RESTMapping : string -> string -> string -> result (string * string * string))
    {St : Type} (res : Resource) (verb : string) (st : St) :
  let run := BasicValidator_Validate RESTMapping
               (fun attrs (st : St) =>
                  (st, SelfSubjectAccessReviewValidator_ValidatePermissions ssar_Create attrs))
               res verb st in
  fst run = st
  /\ (snd run = None
      <-> exists group version resource status,
            RESTMapping (res_Group res) (res_Kind res) (res_Version res)
            = inr (group, version, resource)
            /\ ssar_Create (MkResourceAttributes (res_Namespace res) verb group version
                              resource (res_Name res)) = inr (Some status)
            /\ EvaluationError status = "" /\ Allowed status = true).
Proof.
  unfold BasicValidator_Validate.
  destruct (RESTMapping _ _ _) as [err|[[group version] resource]]; simpl.
  - split; [done|]. split; [done|]. by intros (? & ? & ? & ? & ? & _).
  - split; [done|]. rewrite direct_strategy_nil_iff. split.
    + intros (status & Hrest). by exists group, version, resource, status.
    + intros (? & ? & ? & status & [= <- <- <-] & Hrest). by exists status.
Qed.

(** *** The cached strategy *)

Section CachedRun.

Variable ssrr_Create : list string -> string -> result SubjectRulesReviewStatus.
Variable RulesAllow : AttributesRecord -> list PolicyRule -> bool.

Lemma normalize_namespace_not_empty ns : normalize_namespace ns <> "".
Proof. unfold normalize_namespace. by case_bool_decide. Qed.

(** What one check does to the validator: nothing when the namespace is
    cached; otherwise one more request, and the cache as it was or with
    the rules of the namespace added. *)
Lemma validate_step rv resourceAttrib :
  let ns := normalize_namespace (attr_Namespace resourceAttrib) in
  let rv' := fst (SelfSubjectRulesReviewValidator_ValidatePermissions
                    ssrr_Create RulesAllow rv resourceAttrib) in
  (is_Some (cache rv !! ns) /\ rv' = rv)
  \/ (cache rv !! ns = None /\ ssrrClient rv' = ssrrClient rv ++ [ns]
      /\ (cache rv' = cache rv
          \/ exists status, cache rv' = <[ns := rules_of_status status]> (cache rv))).
Proof.
  intros ns rv'. subst rv'.
  unfold SelfSubjectRulesReviewValidator_ValidatePermissions, populate_cache. fold ns.
  destruct (cache rv !! ns) as [rules|] eqn:Hlook.
  { left. split; [done|]. simpl. rewrite Hlook. simpl. by destruct (RulesAllow _ _). }
  right. split; [done|].
  destruct (ssrr_Create (ssrrClient rv) ns) as [err|status]; simpl; [auto|].
  destruct (Incomplete status); simpl; [auto|].
  rewrite lookup_insert_eq. simpl. destruct (RulesAllow _ _); simpl; eauto.
Qed.

Lemma validate_all_cons rv resourceAttrib rest :
  fst (validate_all ssrr_Create RulesAllow rv (resourceAttrib :: rest))
  = fst (validate_all ssrr_Create RulesAllow
           (fst (SelfSubjectRulesReviewValidator_ValidatePermissions
                   ssrr_Create RulesAllow rv resourceAttrib)) rest).
Proof.
  simpl. destruct (SelfSubjectRulesReviewValidator_ValidatePermissions _ _ _ _) as [rv1 err].
  simpl. by destruct (validate_all _ _ rv1 rest).
Qed.

(** Over any series of checks, from any state of the validator, the
    rules cached for a namespace are never replaced or dropped, and the
    requests already made stay at the head of the list of requests. *)
Theorem cache_entries_kept rv checks :
  let rv' := fst (validate_all ssrr_Create RulesAllow rv checks) in
  (forall ns rules, cache rv !! ns = Some rules -> cache rv' !! ns = Some rules)
  /\ (ssrrClient rv `prefix_of` ssrrClient rv').
Proof.
  revert rv. induction checks as [|resourceAttrib rest IH]; intros rv.
  { simpl. split; done. }
  cbv zeta. rewrite validate_all_cons.
  specialize (IH (fst (SelfSubjectRulesReviewValidator_ValidatePermissions
                         ssrr_Create RulesAllow rv resourceAttrib))).
  cbv zeta in IH. destruct IH as [IHcache IHasked].
  destruct (validate_step rv resourceAttrib) as [[_ Hsame]|(Hmiss & Hasked & Hcache)].
  - rewrite Hsame in *. split; done.
  - split.
    + intros ns rules Hns. apply IHcache.
      destruct Hcache as [->|[status ->]]; [done|].
      rewrite lookup_insert_ne; [done|]. intros <-. congruence.
    + etrans; [|exact IHasked]. rewrite Hasked. by apply prefix_app_r.
Qed.

(** In a run that starts with a new validator, only namespaces that were
    asked about are cached, and the empty namespace is neither asked about
    nor cached: its checks go under [default]. *)
Theorem cache_holds_asked_namespaces checks :
  let rv' := fst (validate_all ssrr_Create RulesAllow
                    NewSelfSubjectRulesReviewValidator checks) in
  (forall ns, is_Some (cache rv' !! ns) -> ns ∈ ssrrClient rv')
  /\ ("" ∉ ssrrClient rv') /\ cache rv' !! "" = None.
Proof.
  assert (forall rv,
            (forall ns, is_Some (cache rv !! ns) -> ns ∈ ssrrClient rv) ->
            "" ∉ ssrrClient rv ->
            let rv' := fst (validate_all ssrr_Create RulesAllow rv checks) in
            (forall ns, is_Some (cache rv' !! ns) -> ns ∈ ssrrClient rv')
            /\ "" ∉ ssrrClient rv') as Hinv.
  { induction checks as [|resourceAttrib rest IH]; intros rv Hcached Hempty; [done|].
    cbv zeta. rewrite validate_all_cons. apply IH.
    - destruct (validate_step rv resourceAttrib) as [[_ ->]|(Hmiss & -> & Hcache)]; [done|].
      intros ns Hns. apply elem_of_app.
      destruct Hcache as [Hc|[status Hc]]; rewrite Hc in Hns; [left; by apply Hcached|].
      rewrite lookup_insert in Hns. case_decide as Heq.
      + right. subst ns. by left.
      + left. by apply Hcached.
    - destruct (validate_step rv resourceAttrib) as [[_ ->]|(_ & -> & _)]; [done|].
      intros [Hin|Hin]%elem_of_app; [done|]. apply list_elem_of_singleton in Hin.
      by apply (normalize_namespace_not_empty (attr_Namespace resourceAttrib)). }
  destruct (Hinv NewSelfSubjectRulesReviewValidator) as [Hcached Hempty].
  { intros ns [x Hx]. simpl in Hx. by rewrite lookup_empty in Hx. }
  { apply not_elem_of_nil. }
  split; [done|]. split; [done|].
  apply eq_None_not_Some. intros Hsome. by apply Hempty, Hcached.
Qed.

(** The cached strategy returns nil only on the say of rules it holds
    for the namespace: when a check passes, the cache has rules for the
    normalized namespace and the rule evaluation allowed the request on
    them. *)
Theorem cached_strategy_allows_only_by_rules rv resourceAttrib :
  let run := SelfSubjectRulesReviewValidator_ValidatePermissions
               ssrr_Create RulesAllow rv resourceAttrib in
  snd run = None ->
  exists rules,
    cache (fst run) !! normalize_namespace (attr_Namespace resourceAttrib) = Some rules
    /\ RulesAllow (MkAttributesRecord (attr_Verb resourceAttrib) (attr_Name resourceAttrib)
                     (attr_Namespace resourceAttrib) (attr_Resource resourceAttrib)
                     (attr_Group resourceAttrib) true) rules = true.
Proof.
  cbv zeta.
  unfold SelfSubjectRulesReviewValidator_ValidatePermissions, populate_cache.
  set (ns := normalize_namespace (attr_Namespace resourceAttrib)).
  destruct (cache rv !! ns) as [rules|] eqn:Hlook.
  - simpl. rewrite Hlook. simpl. destruct (RulesAllow _ rules) eqn:Hallow; simpl; [|done].
    intros _. by exists rules.
  - destruct (ssrr_Create (ssrrClient rv) ns) as [err|status]; simpl; [done|].
    destruct (Incomplete status); simpl; [done|].
    rewrite lookup_insert_eq. simpl.
    destruct (RulesAllow _ (rules_of_status status)) eqn:Hallow; simpl; [|done].
    intros _. exists (rules_of_status status). by rewrite lookup_insert_eq.
Qed.

(** The empty namespace and [default] share one cache entry: after a
    check for the empty namespace has fetched the rules, a check for
    [default] asks nothing and is judged by the same rules. *)
Theorem empty_namespace_shares_default rv first second status :
  attr_Namespace first = "" -> attr_Namespace second = "default" ->
  cache rv !! "default" = None ->
  ssrr_Create (ssrrClient rv) "default" = inr status -> Incomplete status = false ->
  let rv1 := fst (SelfSubjectRulesReviewValidator_ValidatePermissions
                    ssrr_Create RulesAllow rv first) in
  ssrrClient rv1 = ssrrClient rv ++ ["default"]
  /\ SelfSubjectRulesReviewValidator_ValidatePermissions ssrr_Create RulesAllow rv1 second
     = (rv1, verdict RulesAllow second (rules_of_status status)).
Proof.
  intros Hfirst Hsecond Hmiss Hanswer Hcomplete rv1. subst rv1.
  rewrite (validate_populates ssrr_Create RulesAllow rv first status);
    rewrite ?Hfirst; try done.
  simpl. split; [done|]. apply validate_cached. rewrite Hsecond. simpl.
  by rewrite lookup_insert_eq.
Qed.

End CachedRun.

(** *** Roles and bindings *)

(** No resource is resolved both as a role and as a binding: when
    [RulesForRole] returns rules, [RulesForBinding] fails on the kind, and
    when [RulesForBinding] returns rules, [RulesForRole] fails on the
    kind; a resource of any other kind is refused by both. *)
Theorem role_and_binding_resolvers_disjoint
    (AsTypedRole AsTypedClusterRole : Resource -> result (list PolicyRule))
    (AsTypedRoleBinding : Resource -> result RoleBinding)
    (AsTypedClusterRoleBinding : Resource -> result ClusterRoleBinding)
    (ClusterRoles_Get : string -> result (list PolicyRule))
    (Roles_Get : string -> string -> result (list PolicyRule))
    (res : Resource) :
  let role := RulesForRole AsTypedRole AsTypedClusterRole res in
  let binding := RulesForBinding AsTypedRoleBinding AsTypedClusterRoleBinding
                   ClusterRoles_Get Roles_Get res in
  (forall rules, role = inr rules ->
     (res_Kind res = "Role" \/ res_Kind res = "ClusterRole")
     /\ binding = inl (ErrUnknownBindingKind (res_Kind res)))
  /\ (forall rules, binding = inr rules ->
        (res_Kind res = "RoleBinding" \/ res_Kind res = "ClusterRoleBinding")
        /\ role = inl (ErrUnknownRoleKind (res_Kind res)))
  /\ (res_Kind res ∉ ["Role"; "ClusterRole"; "RoleBinding"; "ClusterRoleBinding"] ->
        role = inl (ErrUnknownRoleKind (res_Kind res))
        /\ binding = inl (ErrUnknownBindingKind (res_Kind res))).
Proof.
  intros role binding. subst role binding. unfold RulesForRole, RulesForBinding.
  split; [|split].
  - intros rules. repeat case_bool_decide; try done; intros _;
      (split; [auto|]); congruence.
  - intros rules. repeat case_bool_decide; try done; intros _;
      (split; [auto|]); congruence.
  - intros Hkind. rewrite !not_elem_of_cons in Hkind.
    destruct Hkind as (? & ? & ? & ? & _). by rewrite !bool_decide_eq_false_2.
Qed.

(** *** The run *)

Section RunProperties.

Context {World : Type}.
Variable NewCompositeValidator :
  option PermissionValidator -> Resource -> string -> World -> World * option error.

Lemma Run_as_checks (p : Preflight) (changeGraph : list Change) (w : World) :
  CoreClient (depsFactory p) = None -> RESTMapper (depsFactory p) = None ->
  let checked := check_all (NewCompositeValidator (select_permission_validator (config p)))
                   (planned_checks changeGraph) w in
  Run NewCompositeValidator p changeGraph w
  = (fst checked, match snd checked with
                  | [] => None
                  | failures => Some (ErrJoin failures)
                  end).
Proof.
  intros Hclient Hmapper checked. subst checked. unfold Run. rewrite Hclient, Hmapper.
  rewrite run_changes_check_all.
  by destruct (check_all _ _ w) as [w' [|e errs]].
Qed.

Lemma check_all_failures (validator : Resource -> string -> World -> World * option error)
    checks w e :
  e ∈ snd (check_all validator checks w) ->
  exists res verb w1 w2, (res, verb) ∈ checks /\ validator res verb w1 = (w2, Some e).
Proof.
  revert w. induction checks as [|[res verb] rest IH]; intros w; simpl.
  { intros Hin. by apply elem_of_nil in Hin. }
  destruct (validator res verb w) as [w1 err] eqn:Hcheck.
  specialize (IH w1). destruct (check_all validator rest w1) as [w2 errs]. simpl in *.
  intros [Hin|Hin]%elem_of_app.
  - destruct err as [e'|]; simpl in Hin; [|by apply elem_of_nil in Hin].
    apply list_elem_of_singleton in Hin. subst e'. exists res, verb, w, w1.
    split; [by left|done].
  - destruct (IH Hin) as (res' & verb' & w1' & w2' & Hin' & Hrun).
    exists res', verb', w1', w2'. split; [by right|done].
Qed.

Lemma check_all_length (validator : Resource -> string -> World -> World * option error)
    checks w :
  length (snd (check_all validator checks w)) <= length checks.
Proof.
  revert w. induction checks as [|[res verb] rest IH]; intros w; simpl; [done|].
  destruct (validator res verb w) as [w1 err]. specialize (IH w1).
  destruct (check_all validator rest w1) as [w2 errs]. simpl in *.
  rewrite length_app. destruct err; simpl; lia.
Qed.

(** [Run] makes no check, and so leaves the world as it is, when a
    dependency is missing, the error of the core client going before the
    one of the REST mapper, and when the graph holds nothing but changes
    that are neither deletes nor upserts; in the last case it returns
    nil. *)
Theorem Run_makes_no_check (p : Preflight) (changeGraph : list Change) (w : World) :
  (forall err, CoreClient (depsFactory p) = Some err ->
     Run NewCompositeValidator p changeGraph w = (w, Some err))
  /\ (forall err, CoreClient (depsFactory p) = None -> RESTMapper (depsFactory p) = Some err ->
        Run NewCompositeValidator p changeGraph w = (w, Some err))
  /\ (CoreClient (depsFactory p) = None -> RESTMapper (depsFactory p) = None ->
      (forall change, change ∈ changeGraph -> Op change = ActualChangeOpNoop) ->
      Run NewCompositeValidator p changeGraph w = (w, None)).
Proof.
  split; [|split].
  - intros err Hclient. unfold Run. by rewrite Hclient.
  - intros err Hclient Hmapper. unfold Run. by rewrite Hclient, Hmapper.
  - intros Hclient Hmapper Hnoop. rewrite Run_as_checks by done.
    assert (planned_checks changeGraph = []) as ->; [|done].
    unfold planned_checks. induction changeGraph as [|change rest IH]; simpl; [done|].
    rewrite (Hnoop change) by left. simpl. apply IH. intros c Hc. apply Hnoop. by right.
Qed.

(** A run over two graphs put end to end is the run over the first
    followed by the run over the second from the world the first leaves;
    it returns nil exactly when both of them do. *)
Theorem Run_of_appended_graphs (p : Preflight) (graph1 graph2 : list Change) (w : World) :
  CoreClient (depsFactory p) = None -> RESTMapper (depsFactory p) = None ->
  let run1 := Run NewCompositeValidator p graph1 w in
  let run2 := Run NewCompositeValidator p graph2 (fst run1) in
  let run := Run NewCompositeValidator p (graph1 ++ graph2) w in
  fst run = fst run2
  /\ (snd run = None <-> snd run1 = None /\ snd run2 = None).
Proof.
  intros Hclient Hmapper run1 run2 run. subst run1 run2 run.
  rewrite !Run_as_checks by done. cbv zeta.
  assert (planned_checks (graph1 ++ graph2) = planned_checks graph1 ++ planned_checks graph2)
    as -> by apply flat_map_app.
  rewrite check_all_app.
  destruct (check_all _ (planned_checks graph1) w) as [w1 errs1]. simpl.
  destruct (check_all _ (planned_checks graph2) w1) as [w2 errs2]. simpl.
  split; [done|]. destruct errs1, errs2; simpl; naive_solver.
Qed.

(** Every error in the join [Run] returns is the error some check of a
    delete or an upsert of the graph came back with, for one of the verbs
    of that change, and the join holds at most one error per check made,
    so no more than two per change. *)
Theorem Run_failures_are_checks (p : Preflight) (changeGraph : list Change) (w : World)
    (failures : list error) :
  CoreClient (depsFactory p) = None -> RESTMapper (depsFactory p) = None ->
  snd (Run NewCompositeValidator p changeGraph w) = Some (ErrJoin failures) ->
  failures <> []
  /\ length failures <= 2 * length changeGraph
  /\ forall e, e ∈ failures ->
       exists change verb w1 w2,
         change ∈ changeGraph /\ verb ∈ required_verbs (Op change)
         /\ NewCompositeValidator (select_permission_validator (config p))
              (ChangeResource change) verb w1 = (w2, Some e).
Proof.
  intros Hclient Hmapper. rewrite Run_as_checks by done. simpl.
  set (validator := NewCompositeValidator (select_permission_validator (config p))).
  pose proof (check_all_length validator (planned_checks changeGraph) w) as Hlen.
  pose proof (fun e => check_all_failures validator (planned_checks changeGraph) w e) as Hreal.
  destruct (snd (check_all validator (planned_checks changeGraph) w)) as [|e0 errs] eqn:Herrs;
    [done|].
  intros [= <-]. split; [done|]. split.
  - etrans; [exact Hlen|]. clear. unfold planned_checks.
    induction changeGraph as [|[[] res] rest IH]; simpl in *; lia.
  - intros e He. destruct (Hreal e He) as (res & verb & w1 & w2 & Hin & Hrun).
    unfold planned_checks in Hin. apply list_elem_of_In, in_flat_map in Hin.
    destruct Hin as (change & Hchange & Hpair). apply in_map_iff in Hpair.
    destruct Hpair as (verb' & [= <- <-] & Hverb).
    exists change, verb', w1, w2. split; [by apply list_elem_of_In|].
    split; [by apply list_elem_of_In|done].
Qed.

End RunProperties.

(** *** The properties at sample inputs *)


Lemma direct_strategy_allows_iff_sample :
  SelfSubjectAccessReviewValidator_ValidatePermissions review_all_but_create
    (get_configmaps "dev") = None
  /\ SelfSubjectAccessReviewValidator_ValidatePermissions review_all_but_create
       (MkResourceAttributes "dev" "create" "apps" "v1" "deployments" "web")
     = Some (ErrNotPermitted "create" "apps" "v1" "deployments").
Proof.
  split.
  - apply direct_strategy_allows_iff. eexists. split; [reflexivity|]. split; reflexivity.
  - apply (proj2 (direct_strategy_allows_iff review_all_but_create
                    (MkResourceAttributes "dev" "create" "apps" "v1" "deployments" "web"))
             (MkSubjectAccessReviewStatus false "")); reflexivity.
Defined.

Lemma basic_validator_allows_iff_sample :
  snd (BasicValidator_Validate map_deployments
         (fun attrs (st : unit) =>
            (st, SelfSubjectAccessReviewValidator_ValidatePermissions
                   review_all_but_create attrs))
         a_deployment "update" tt) = None.
Proof.
  apply (basic_validator_allows_iff review_all_but_create map_deployments a_deployment
           "update" tt).
  exists "apps", "v1", "deployments", (MkSubjectAccessReviewStatus true "").
  split; [reflexivity|]. split; [reflexivity|]. split; reflexivity.
Defined.

Lemma cache_entries_kept_sample :
  cache (fst (validate_all grant_everything verb_listed validator_with_dev
                [get_configmaps "dev"; get_configmaps "prod"])) !! "dev"
  = Some admin_rules.
Proof.
  apply (cache_entries_kept grant_everything verb_listed validator_with_dev
           [get_configmaps "dev"; get_configmaps "prod"]).
  by vm_compute.
Defined.

Lemma cache_holds_asked_namespaces_sample :
  "default" ∈ ssrrClient (fst (validate_all grant_everything verb_listed
                                 NewSelfSubjectRulesReviewValidator [get_configmaps ""])).
Proof.
  apply (cache_holds_asked_namespaces grant_everything verb_listed [get_configmaps ""]).
  eexists. by vm_compute.
Defined.

Lemma cached_strategy_allows_only_by_rules_sample :
  exists rules,
    cache (fst (SelfSubjectRulesReviewValidator_ValidatePermissions grant_everything
                  verb_listed NewSelfSubjectRulesReviewValidator (get_configmaps "dev")))
      !! "dev" = Some rules
    /\ verb_listed (MkAttributesRecord "get" "settings" "dev" "configmaps" "" true) rules
       = true.
Proof.
  apply (cached_strategy_allows_only_by_rules grant_everything verb_listed
           NewSelfSubjectRulesReviewValidator (get_configmaps "dev")).
  reflexivity.
Defined.

Lemma empty_namespace_shares_default_sample :
  ssrrClient (fst (validate_all grant_everything verb_listed
                     NewSelfSubjectRulesReviewValidator
                     [get_configmaps ""; get_configmaps "default"]))
  = ["default"].
Proof.
  destruct (empty_namespace_shares_default grant_everything verb_listed
              NewSelfSubjectRulesReviewValidator (get_configmaps "")
              (get_configmaps "default")
              (MkSubjectRulesReviewStatus [MkResourceRule ["*"] ["*"] ["*"] []] [] false)
              eq_refl eq_refl eq_refl eq_refl eq_refl) as [Hasked Hsecond].
  simpl.
  destruct (SelfSubjectRulesReviewValidator_ValidatePermissions grant_everything
              verb_listed NewSelfSubjectRulesReviewValidator (get_configmaps ""))
    as [rv1 err1]. simpl in Hasked, Hsecond. rewrite Hsecond. simpl. exact Hasked.
Defined.

Lemma role_and_binding_resolvers_disjoint_sample :
  RulesForBinding convert_role_binding convert_cluster_role_binding get_cluster_role get_role
    (MkResource "rbac.authorization.k8s.io" "v1" "Role" "dev" "reader")
  = inl (ErrUnknownBindingKind "Role")
  /\ RulesForRole convert_role convert_role a_deployment = inl (ErrUnknownRoleKind "Deployment").
Proof.
  split.
  - destruct (role_and_binding_resolvers_disjoint convert_role convert_role
                convert_role_binding convert_cluster_role_binding get_cluster_role get_role
                (MkResource "rbac.authorization.k8s.io" "v1" "Role" "dev" "reader"))
      as (Hrole & _).
    destruct (Hrole admin_rules eq_refl) as [_ Hbinding]. exact Hbinding.
  - destruct (role_and_binding_resolvers_disjoint convert_role convert_role
                convert_role_binding convert_cluster_role_binding get_cluster_role get_role
                a_deployment) as (_ & _ & Hother).
    destruct Hother as [Hrole _]; [|exact Hrole].
    intros Hin. repeat (apply elem_of_cons in Hin as [Hin|Hin]; [discriminate|]).
    by apply elem_of_nil in Hin.
Defined.

Lemma Run_makes_no_check_sample :
  Run all_but_create (NewPreflight (MkDepsFactory (Some (ErrOther "no client")) None) true)
    [MkChange ActualChangeOpUpsert a_deployment] tt
  = (tt, Some (ErrOther "no client"))
  /\ Run all_but_create (NewPreflight working_deps true)
       [MkChange ActualChangeOpNoop a_deployment] tt
     = (tt, None).
Proof.
  split.
  - destruct (Run_makes_no_check all_but_create
                (NewPreflight (MkDepsFactory (Some (ErrOther "no client")) None) true)
                [MkChange ActualChangeOpUpsert a_deployment] tt) as (Hclient & _).
    apply Hclient. reflexivity.
  - destruct (Run_makes_no_check all_but_create (NewPreflight working_deps true)
                [MkChange ActualChangeOpNoop a_deployment] tt) as (_ & _ & Hnoop).
    apply Hnoop; [reflexivity|reflexivity|].
    intros change Hin. apply list_elem_of_singleton in Hin. by subst change.
Defined.

Lemma Run_of_appended_graphs_sample :
  snd (Run all_but_create (NewPreflight working_deps true)
         ([MkChange ActualChangeOpDelete a_deployment]
          ++ [MkChange ActualChangeOpNoop a_deployment]) tt) = None.
Proof.
  apply (Run_of_appended_graphs all_but_create (NewPreflight working_deps true)
           [MkChange ActualChangeOpDelete a_deployment]
           [MkChange ActualChangeOpNoop a_deployment] tt eq_refl eq_refl).
  split; reflexivity.
Defined.

Lemma Run_failures_are_checks_sample :
  exists change verb w1 w2,
    change ∈ [MkChange ActualChangeOpUpsert a_deployment]
    /\ verb ∈ required_verbs (Op change)
    /\ all_but_create (Some SelfSubjectAccessReviewStrategy) (ChangeResource change) verb w1
       = (w2, Some (ErrNotPermitted "create" "apps" "v1" "deployments")).
Proof.
  destruct (Run_failures_are_checks all_but_create (NewPreflight working_deps true)
              [MkChange ActualChangeOpUpsert a_deployment] tt
              [ErrNotPermitted "create" "apps" "v1" "deployments"]
              eq_refl eq_refl eq_refl) as (_ & _ & Hreal).
  apply Hreal. left.
Defined.

End PermissionsProperties.

(** ** Properties of the resource filter flags *)

Module ToolsProperties.
Import Tools Samples.

Lemma split_last_app front c : split_last (front +:+ String c "") = Some (front, c).
Proof.
  induction front as [|a front IH]; [done|].
  change (String a front +:+ String c "") with (String a (front +:+ String c "")).
  simpl. by rewrite IH.
Qed.

Lemma split_last_Some age front c :
  split_last age = Some (front, c) -> age = front +:+ String c "".
Proof.
  revert front. induction age as [|a age IH]; intros front; simpl; [done|].
  destruct (split_last age) as [[front' c']|] eqn:Hsplit.
  - intros [= <- <-]. by rewrite (IH front' eq_refl).
  - intros [= <- <-]. destruct age as [|b age]; [done|].
    simpl in Hsplit. by destruct (split_last age) as [[]|].
Qed.

Lemma split_last_None age : split_last age = None <-> age = "".
Proof.
  split; [|by intros ->]. destruct age as [|a age]; [done|]. simpl.
  by destruct (split_last age) as [[]|].
Qed.

Section Clock.

Context {Selectors BoolFilter : Type}.
Variable ParseDuration : string -> option Z.
Variable now : Z.
Variable NewBoolFilterFromString : string -> error + BoolFilter.
Variable no_selectors : Selectors.

Lemma Times_split (s : ResourceFilterFlags Selectors BoolFilter) front c :
  Age s = front +:+ String c "" ->
  Times ParseDuration now s
  = let '(ageStr, ageOlder) :=
      if bool_decide (String c "" = "+") then (front, true)
      else if bool_decide (String c "" = "-") then (front, false)
      else ("", false) in
    match ParseDuration ageStr with
    | Some dur =>
        if ageOlder then (Some (now + neg_int64 dur)%Z, None, None)
        else (None, Some (now + neg_int64 dur)%Z, None)
    | None => (None, None, Some ErrAgeFilter)
    end.
Proof. intros Hage. unfold Times. by rewrite Hage, split_last_app. Qed.

Lemma Times_one_bound (s : ResourceFilterFlags Selectors BoolFilter) :
  let '(before, after, err) := Times ParseDuration now s in
  ~ (is_Some before /\ is_Some after).
Proof.
  unfold Times. destruct (split_last (Age s)) as [[f c]|]; [|by intros [[] []]].
  repeat case_bool_decide; destruct (ParseDuration _); by intros [[] []].
Qed.

(** What [Times] makes of an age: nothing of an empty one; of an age
    ending in [+] the bound "created before now minus the duration", of
    one ending in [-] the bound "created after" it, the duration being
    what stands before the sign; the one fixed error when that does not
    parse; and never two bounds at once. *)
Theorem Times_reads_the_sign (s : ResourceFilterFlags Selectors BoolFilter) (front : string) :
  (Age s = "" -> Times ParseDuration now s = (None, None, None))
  /\ (Age s = front +:+ "+" ->
      Times ParseDuration now s
      = match ParseDuration front with
        | Some dur => (Some (now + neg_int64 dur)%Z, None, None)
        | None => (None, None, Some ErrAgeFilter)
        end)
  /\ (Age s = front +:+ "-" ->
      Times ParseDuration now s
      = match ParseDuration front with
        | Some dur => (None, Some (now + neg_int64 dur)%Z, None)
        | None => (None, None, Some ErrAgeFilter)
        end)
  /\ (let '(before, after, err) := Times ParseDuration now s in
      ~ (is_Some before /\ is_Some after)
      /\ (is_Some err -> before = None /\ after = None /\ err = Some ErrAgeFilter)).
Proof.
  split; [|split; [|split]].
  - intros Hage. unfold Times. by rewrite Hage.
  - intros Hage. rewrite (Times_split s front _ Hage). simpl. by destruct (ParseDuration front).
  - intros Hage. rewrite (Times_split s front _ Hage). simpl. by destruct (ParseDuration front).
  - unfold Times. destruct (split_last (Age s)) as [[f c]|].
    + repeat case_bool_decide; destruct (ParseDuration _);
        (split; [by intros [[] []]|]); by intros [].
    + split; [by intros [[] []]|]. by intros [].
Qed.

(** An age that is not empty and ends in neither [+] nor [-] is always
    refused when the duration parser refuses the empty string, as
    [time.ParseDuration] does: what stands in the age is not looked at. *)
Theorem Times_refuses_unsigned_age (s : ResourceFilterFlags Selectors BoolFilter) :
  ParseDuration "" = None ->
  Age s <> "" ->
  (forall front, Age s <> front +:+ "+" /\ Age s <> front +:+ "-") ->
  Times ParseDuration now s = (None, None, Some ErrAgeFilter).
Proof.
  intros Hempty Hage Hsign. unfold Times.
  destruct (split_last (Age s)) as [[front c]|] eqn:Hsplit.
  - apply split_last_Some in Hsplit. destruct (Hsign front) as [Hplus Hminus].
    rewrite bool_decide_eq_false_2 by (intros Hc; rewrite Hsplit, Hc in Hplus; done).
    rewrite bool_decide_eq_false_2 by (intros Hc; rewrite Hsplit, Hc in Hminus; done).
    by rewrite Hempty.
  - by apply split_last_None in Hsplit.
Qed.

(** [ResourceFilter] succeeds exactly when the age is accepted and the
    boolean filter is empty or parses. When it fails it hands back the
    zero filter; when it succeeds the filter has the selectors of the
    flags, the time bounds of [Times], never both, and the parsed boolean
    filter, or the one the flags hold when the boolean filter is empty. *)
Theorem ResourceFilter_of_flags (s : ResourceFilterFlags Selectors BoolFilter) :
  let run := ResourceFilterFlags_ResourceFilter ParseDuration now NewBoolFilterFromString
               no_selectors s in
  let times := Times ParseDuration now s in
  (snd run = None
   <-> snd times = None
       /\ (Bf s = "" \/ exists boolFilter, NewBoolFilterFromString (Bf s) = inr boolFilter))
  /\ (is_Some (snd run) -> fst run = MkResourceFilter None None no_selectors None)
  /\ (snd run = None ->
      selectors (fst run) = selectors (Rf s)
      /\ CreatedAtBeforeTime (fst run) = fst (fst times)
      /\ CreatedAtAfterTime (fst run) = snd (fst times)
      /\ ~ (is_Some (CreatedAtBeforeTime (fst run)) /\ is_Some (CreatedAtAfterTime (fst run)))
      /\ (Bf s = "" -> BoolFilter_ (fst run) = BoolFilter_ (Rf s))
      /\ (forall boolFilter, Bf s <> "" -> NewBoolFilterFromString (Bf s) = inr boolFilter ->
            BoolFilter_ (fst run) = Some boolFilter)).
Proof.
  intros run times. subst run times. unfold ResourceFilterFlags_ResourceFilter.
  pose proof (Times_one_bound s) as Hnever.
  destruct (Times ParseDuration now s) as [[before after] [err|]]; simpl.
  { split; [split; [done|by intros [? _]]|]. split; [done|]. done. }
  assert ((0 <? String.length (Bf s)) = negb (bool_decide (Bf s = ""))) as ->.
  { destruct (Bf s); [done|]. by rewrite bool_decide_eq_false_2. }
  case_bool_decide as Hbf; simpl.
  - split; [split; [auto|done]|]. split; [by intros []|]. intros _. by repeat split.
  - destruct (NewBoolFilterFromString (Bf s)) as [e|boolFilter] eqn:Hparse; simpl.
    + split; [split; [done|]|].
      * intros [_ [?|[? ?]]]; congruence.
      * split; [done|done].
    + split; [split; [eauto|done]|]. split; [by intros []|]. intros _.
      repeat split; try done. intros ? _ [= <-]. done.
Qed.

End Clock.

(** *** The properties at sample inputs *)

Lemma Times_reads_the_sign_sample :
  Times two_durations 1000000000000 (flags_with_age "5m+")
  = (Some 700000000000%Z, None, None)
  /\ Times two_durations 1000000000000 (flags_with_age "1s-")
     = (None, Some 999000000000%Z, None)
  /\ Times two_durations 1000000000000 (flags_with_age "") = (None, None, None).
Proof.
  split; [|split].
  - destruct (Times_reads_the_sign two_durations 1000000000000 (flags_with_age "5m+") "5m")
      as (_ & Hplus & _).
    rewrite Hplus; reflexivity.
  - destruct (Times_reads_the_sign two_durations 1000000000000 (flags_with_age "1s-") "1s")
      as (_ & _ & Hminus & _).
    rewrite Hminus; reflexivity.
  - apply (Times_reads_the_sign two_durations 1000000000000 (flags_with_age "") "").
    reflexivity.
Defined.

Lemma Times_refuses_unsigned_age_sample :
  Times two_durations 1000000000000 (flags_with_age "5m") = (None, None, Some ErrAgeFilter).
Proof.
  apply Times_refuses_unsigned_age; [reflexivity|discriminate|].
  intros front. split; intros Heq; simpl in Heq;
    destruct front as [|a [|b [|c front]]]; vm_compute in Heq; discriminate.
Defined.

Lemma ResourceFilter_of_flags_sample :
  snd (ResourceFilterFlags_ResourceFilter two_durations 1000000000000 braces_only []
         (flags_with_age "5m+")) = None
  /\ fst (ResourceFilterFlags_ResourceFilter two_durations 1000000000000 braces_only []
            (flags_with_age "5m"))
     = MkResourceFilter None None [] None.
Proof.
  split.
  - apply (ResourceFilter_of_flags two_durations 1000000000000 braces_only []
             (flags_with_age "5m+")).
    split; [reflexivity|left; reflexivity].
  - apply (ResourceFilter_of_flags two_durations 1000000000000 braces_only []
             (flags_with_age "5m")).
    eexists. reflexivity.
Defined.

End ToolsProperties.
